(** * Overlap-aware path cost and top-5 combination search

    A shallow embedding of the combined multi-destination path selection
    of [1013.py] (evaluator [calculate_total_path_cost], deduplication
    [path_already_exists], search [calculate_combined_paths_cost], map
    construction [find_all_paths_to_destinations]) and of the earlier
    evaluator of [userStory4.py].

    Conventions of the embedding:
    - a driver [Path] object is the record of what the code reads from it:
      its [nodes] and its [relationships]; a node carries the properties
      ['device_name'] and ['cost'], a relationship its two end nodes and
      ['cost'];
    - costs are integers ([Z]);
    - a Python [set] is a [gset]; a loop over a set runs over [elements];
    - a Python [dict] that is iterated ([all_paths_info]) is an association
      list in insertion order; the [memo] dict, which is only looked up and
      assigned, is a [gmap];
    - the database look-ups [get_node_cost] and [get_edge_cost] and the
      driver's [str] of a path are parameters of the development;
    - [==] on paths (used by [p in path]) is equality of the path records;
    - the recursion of the search is bounded by a fuel argument, and shown
      never to exhaust a fuel larger than the number of destinations. *)

From Stdlib Require Import ZArith Lia Sorting.Sorted Sorting.Permutation.
From stdpp Require Import base option list sets gmap strings pretty sorting.

Local Open Scope string_scope.
Local Open Scope list_scope.
Local Open Scope Z_scope.

#[local] Set Warnings "-clear-no-such-hyp".

(** ** Data model *)

Record Node := mkNode { device_name : string; cost : Z }.

Record Relationship :=
  mkRel { start_node : Node; end_node : Node; rel_cost : Z }.

Record Path := mkPath { nodes : list Node; relationships : list Relationship }.

(** An element of a candidate list is a driver path or a string (the
    "no available path" filler of [userStory4.py]). *)
Inductive PathItem :=
| PathObj (p : Path)
| PathStr (s : string).

#[global] Instance Node_eq_dec : EqDecision Node.
Proof. solve_decision. Defined.
#[global] Instance Relationship_eq_dec : EqDecision Relationship.
Proof. solve_decision. Defined.
#[global] Instance Path_eq_dec : EqDecision Path.
Proof. solve_decision. Defined.
#[global] Instance PathItem_eq_dec : EqDecision PathItem.
Proof. solve_decision. Defined.

(** [(path, cost)] as stored in candidate lists and combinations. *)
Definition Entry : Type := PathItem * Z.
(** A (partial) combination: the chosen entries, in order of choice. *)
Definition Combination : Type := list Entry.
(** A combination with its true cost. *)
Definition Scored : Type := Combination * Z.
(** [all_paths_info]: destination name to candidate list, insertion order. *)
Definition PathsInfo : Type := list (string * list Entry).

(** Python's [sum]: a left fold from [0]. *)
Definition sum (l : list Z) : Z := foldl Z.add 0 l.

(** [isinstance(path, str)] *)
Definition is_str (p : PathItem) : bool :=
  match p with PathStr _ => true | PathObj _ => false end.

(** ** One pass of the first-occurrence loop, for nodes and for edges alike

    [for x in xs: if x in visited: overlap += cost(x); visited.add(x)] *)
Section Visit.
Context {A : Type} {EqA : EqDecision A} {CntA : Countable A} (cost_of : A → Z).

Definition visit (st : gset A * Z) (x : A) : gset A * Z :=
    let '(visited, overlap) := st in
    (visited ∪ {[x]},
     if bool_decide (x ∈ visited) then overlap + cost_of x else overlap).

Definition visit_all (st : gset A * Z) (xs : gset A) : gset A * Z :=
    foldl visit st (elements xs).
End Visit.

(** ** The evaluator of [1013.py] *)
Module F1013.
Section Evaluator.
Variable get_node_cost : string → Z.
Variable get_edge_cost : string * string → Z.

  (** [set([node['device_name'] for node in path.nodes[1:]])], or [set()]
      for a string. *)
Definition node_names (p : PathItem) : gset string :=
    match p with
    | PathObj p => list_to_set (map device_name (tail (nodes p)))
    | PathStr _ => ∅
    end.

  (** [set([(rel.start_node['device_name'], rel.end_node['device_name'])
            for rel in path.relationships])], or [set()] for a string. *)
Definition edge_names (p : PathItem) : gset (string * string) :=
    match p with
    | PathObj p =>
        list_to_set
          (map (λ r, (device_name (start_node r), device_name (end_node r)))
               (relationships p))
    | PathStr _ => ∅
    end.

  (** State of the loop: visited nodes and their overlap cost, visited
      edges and their overlap cost. *)
Definition EvalState : Type := (gset string * Z) * (gset (string * string) * Z).

Definition eval_step (st : EvalState)
      (ne : gset string * gset (string * string)) : EvalState :=
    (visit_all get_node_cost st.1 ne.1, visit_all get_edge_cost st.2 ne.2).

Definition calculate_total_path_cost (paths : list PathItem)
      (sub_costs : list Z) : Z * gset string :=
    let all_nodes := map node_names paths in
    let all_edges := map edge_names paths in
    let '((visited_nodes, overlapping_nodes_cost),
          (visited_edges, overlapping_edges_cost)) :=
      foldl eval_step ((∅, 0), (∅, 0)) (zip all_nodes all_edges) in
    let total_path_cost :=
      sum sub_costs - overlapping_nodes_cost - overlapping_edges_cost in
    (total_path_cost, visited_nodes).
End Evaluator.
End F1013.

(** ** The evaluator of [userStory4.py] *)
Module UserStory4.
  (** [set([(node['device_name'], node['cost']) for node in path.nodes[1:]])] *)
Definition node_pairs (p : PathItem) : gset (string * Z) :=
    match p with
    | PathObj p => list_to_set (map (λ x, (device_name x, cost x)) (tail (nodes p)))
    | PathStr _ => ∅
    end.

  (** [set([(rel.start_node['device_name'], rel.end_node['device_name'],
             rel['cost']) for rel in path.relationships])] *)
Definition rel_triples (p : PathItem) : gset (string * string * Z) :=
    match p with
    | PathObj p =>
        list_to_set
          (map (λ r, (device_name (start_node r), device_name (end_node r), rel_cost r))
               (relationships p))
    | PathStr _ => ∅
    end.

  (** The intersection of all the sets when there are at least two of them
      ([set.intersection] applied to the unpacked list), else [set()]. *)
Definition intersection_all {A} `{Countable A} (sets : list (gset A)) : gset A :=
    match sets with
    | s0 :: (_ :: _) as rest => foldl (∩) s0 rest
    | _ => ∅
    end.

Definition calculate_total_path_cost (paths : list PathItem)
      (sub_costs : list Z) : Z * gset string :=
    let all_nodes := map node_pairs paths in
    let all_rels := map rel_triples paths in
    let overlapping_nodes := intersection_all all_nodes in
    let overlapping_rels := intersection_all all_rels in
    let overlapping_nodes_cost := sum (map snd (elements overlapping_nodes)) in
    let overlapping_rels_cost := sum (map snd (elements overlapping_rels)) in
    let total_overlapping_cost := overlapping_nodes_cost + overlapping_rels_cost in
    let total_path_cost := sum sub_costs - total_overlapping_cost in
    (total_path_cost, set_map fst overlapping_nodes).
End UserStory4.

(** ** Deduplication, ranking and the search of [1013.py] *)

(** [for path, cost in paths_costs:
       if cost == new_cost and all(p in path for p in new_path): return True
     return False] *)
Fixpoint path_already_exists (paths_costs : list Scored)
    (new_path : Combination) (new_cost : Z) : bool :=
  match paths_costs with
  | [] => false
  | (path, cost) :: rest =>
      if bool_decide (cost = new_cost)
         && forallb (λ p, bool_decide (p ∈ path)) new_path
      then true
      else path_already_exists rest new_path new_cost
  end.

(** [list.sort(key=lambda x: x[1])] is a stable sort on the cost; the
    stable insertion sort below is that function (see [sort_by_cost_perm],
    [sort_by_cost_sorted] and [sort_by_cost_stable]). *)
Fixpoint insert_by_cost (x : Scored) (l : list Scored) : list Scored :=
  match l with
  | [] => [x]
  | y :: l' => if bool_decide (x.2 ≤ y.2) then x :: l else y :: insert_by_cost x l'
  end.

Definition sort_by_cost (l : list Scored) : list Scored :=
  foldr insert_by_cost [] l.

(** The inner loop over the results of a recursive call:
    [if not path_already_exists(combined, sub_path, sub_cost):
        combined.append((sub_path, sub_cost))] *)
Definition add_result (combined : list Scored) (sub : Scored) : list Scored :=
  if path_already_exists combined sub.1 sub.2 then combined else combined ++ [sub].

Definition add_results (combined subs : list Scored) : list Scored :=
  foldl add_result combined subs.

(** A [for] loop whose body may run out of fuel. *)
Fixpoint for_each {A St : Type} (body : St → A → option St) (l : list A)
    (st : St) : option St :=
  match l with
  | [] => Some st
  | x :: l' => match body st x with
               | Some st' => for_each body l' st'
               | None => None
               end
  end.

(** The key of the memo: [(current_cost, tuple((str(p), c) ...),
    frozenset(visited_destinations))]. *)
Definition MemoKey : Type := Z * list (string * Z) * gset string.

(** [{key: val for key, val in all_paths_info.items()
      if key not in new_visited_destinations}] *)
Definition remaining_destinations (all_paths_info : PathsInfo)
    (new_visited_destinations : gset string) : PathsInfo :=
  filter (λ kv, kv.1 ∉ new_visited_destinations) all_paths_info.

(** The [memo] dict. *)
Abbreviation Memo := (gmap MemoKey (list Scored)).

(** A call of the search: arguments [all_paths_info], [current_path],
    [current_cost], [visited_destinations] and the memo as it stands; the
    result list and the memo as the call leaves it, or [None] when the fuel
    that bounds the recursion depth ran out. *)
Abbreviation SearchFn :=
  (PathsInfo → Combination → Z → gset string → Memo → option (list Scored * Memo)).

Section Search.
Variable get_node_cost : string → Z.
Variable get_edge_cost : string * string → Z.
(** The driver's [str] of a path object. *)
Variable path_str : Path → string.

Definition str (p : PathItem) : string :=
  match p with PathObj p => path_str p | PathStr s => s end.

(** [total_cost, _ = calculate_total_path_cost([p for p, _ in new_path],
                                               [c for _, c in new_path])] *)
Definition total_cost_of (new_path : Combination) : Z :=
  (F1013.calculate_total_path_cost get_node_cost get_edge_cost
     (map fst new_path) (map snd new_path)).1.

(** Body of [for path, cost in paths_and_costs]; the state of the loop is
    [combined_paths_costs] and the memo. *)
Definition try_path (recurse : SearchFn) (all_paths_info : PathsInfo)
    (current_path : Combination) (visited_destinations : gset string)
    (destination_name : string) (st : list Scored * Memo) (pc : Entry)
    : option (list Scored * Memo) :=
  if is_str pc.1 then Some st
  else
    let new_path := current_path ++ [pc] in
    let total_cost := total_cost_of new_path in
    let new_visited_destinations := visited_destinations ∪ {[destination_name]} in
    match recurse (remaining_destinations all_paths_info new_visited_destinations)
                  new_path total_cost new_visited_destinations st.2 with
    | Some (subs, memo') => Some (add_results st.1 subs, memo')
    | None => None
    end.

(** Body of [for destination_name, paths_and_costs in all_paths_info.items()]. *)
Definition try_destination (recurse : SearchFn) (all_paths_info : PathsInfo)
    (current_path : Combination) (visited_destinations : gset string)
    (st : list Scored * Memo) (d : string * list Entry)
    : option (list Scored * Memo) :=
  if bool_decide (d.1 ∈ visited_destinations) then Some st
  else for_each (try_path recurse all_paths_info current_path
                          visited_destinations d.1) d.2 st.

(** Body of [calculate_combined_paths_cost], the recursive calls being
    made through [recurse]. *)
Definition search_body (recurse : SearchFn) : SearchFn :=
  λ all_paths_info current_path current_cost visited_destinations memo,
  match all_paths_info with
  | [] => Some ([(current_path, current_cost)], memo)
  | _ :: _ =>
    let paths_tuple := map (λ pc : Entry, (str pc.1, pc.2)) current_path in
    let memo_key : MemoKey := (current_cost, paths_tuple, visited_destinations) in
    match memo !! memo_key with
    | Some r => Some (r, memo)
    | None =>
      match for_each (try_destination recurse all_paths_info current_path
                                      visited_destinations)
                     all_paths_info ([], memo) with
      | Some (combined_paths_costs, memo') =>
          let result := take 5 (sort_by_cost combined_paths_costs) in
          Some (result, <[memo_key := result]> memo')
      | None => None
      end
    end
  end.

Fixpoint calculate_combined_paths_cost_rec (fuel : nat) : SearchFn :=
  match fuel with
  | O => λ _ _ _ _ _, None
  | S fuel' => search_body (calculate_combined_paths_cost_rec fuel')
  end.

(** The call of [interactive_shortest_path]: default arguments, fresh
    memo.  The recursion is never deeper than the number of destinations
    (see [search_terminates]). *)
Definition calculate_combined_paths_cost (all_paths_info : PathsInfo)
    : option (list Scored) :=
  fst <$> calculate_combined_paths_cost_rec (S (length all_paths_info))
            all_paths_info [] 0 ∅ ∅.
End Search.

(** ** [find_all_paths_to_destinations]

    [run_query d] is the list of records the query returns for
    destination [d]. *)
Fixpoint dict_set (d : PathsInfo) (k : string) (v : list Entry) : PathsInfo :=
  match d with
  | [] => [(k, v)]
  | (k', v') :: d' =>
      if bool_decide (k' = k) then (k, v) :: d' else (k', v') :: dict_set d' k v
  end.

Definition find_all_paths_to_destinations (run_query : string → list Entry)
    (destination_names : list string) : PathsInfo :=
  foldl (λ all_paths_info destination_name,
           let paths_and_costs := run_query destination_name in
           match paths_and_costs with
           | [] => all_paths_info
           | _ :: _ => dict_set all_paths_info destination_name paths_and_costs
           end)
        [] destination_names.

(** ** Fetching and displaying the candidates in [userStory4.py] *)
Module UserStory4Display.

(** The filler of [find_5_shortest_paths_with_exclusion]:
    a string in place of a path, with cost 0. *)
Definition no_path_filler : Entry := (PathStr "没有可用的路径fk", 0).

(** [while len(paths_and_costs) < 5: paths_and_costs.append(filler)];
    [None] when the fuel that bounds the loop ran out. *)
Fixpoint pad_to_five (fuel : nat) (paths_and_costs : list Entry)
    : option (list Entry) :=
  match fuel with
  | O => None
  | S fuel' =>
      if bool_decide (length paths_and_costs < 5)%nat
      then pad_to_five fuel' (paths_and_costs ++ [no_path_filler])
      else Some paths_and_costs
  end.

(** [run_query d] is the list of records the query returns for
    destination [d]; every destination gets a key. *)
Definition find_5_shortest_paths_with_exclusion (run_query : string → list Entry)
    (destination_names : list string) : option PathsInfo :=
  for_each (λ all_paths_info destination_name,
              match pad_to_five 6 (run_query destination_name) with
              | Some paths_and_costs =>
                  Some (dict_set all_paths_info destination_name paths_and_costs)
              | None => None
              end)
           destination_names [].

(** [all_paths_info[dest]], [None] for a missing key. *)
Fixpoint dict_get (d : PathsInfo) (k : string) : option (list Entry) :=
  match d with
  | [] => None
  | (k', v) :: d' => if bool_decide (k' = k) then Some v else dict_get d' k
  end.

(** [[all_paths_info[dest][idx] for dest in destination_names]], [None]
    for a missing key or an index out of range. *)
Definition paths_data (all_paths_info : PathsInfo)
    (destination_names : list string) (idx : nat) : option (list Entry) :=
  mapM (λ dest, match dict_get all_paths_info dest with
                | Some paths_and_costs => paths_and_costs !! idx
                | None => None
                end) destination_names.

(** One round of [for idx in range(5)]: the row's paths and costs are
    unzipped (which fails on an empty row) and evaluated. *)
Definition row_total (all_paths_info : PathsInfo)
    (destination_names : list string) (idx : nat) : option (Z * gset string) :=
  match paths_data all_paths_info destination_names idx with
  | Some [] => None
  | Some row =>
      Some (UserStory4.calculate_total_path_cost (map fst row) (map snd row))
  | None => None
  end.
End UserStory4Display.

(** ** The prompts of [1013.py]

    What the user types is a list of lines, read one by one by [input];
    reading past its end is Python's [EOFError].  What is printed is left
    out.  [str.strip] and [str.lower] are parameters. *)
Inductive Interaction (A : Type) : Type :=
| Returned (result : A) (unread : list string)
| EOFError.
Arguments Returned {A} result unread.
Arguments EOFError {A}.

(** [list.remove(x)]: the first occurrence goes. *)
Fixpoint list_remove (x : string) (l : list string) : list string :=
  match l with
  | [] => []
  | y :: l' => if bool_decide (y = x) then l' else y :: list_remove x l'
  end.

Section Prompts.
Variable strip : string → string.
Variable lower : string → string.

(** [get_user_input(prompt, valid_options)]: [None] is Python's [None]. *)
Fixpoint get_user_input (valid_options : list string) (inputs : list string)
    : Interaction (option string) :=
  match inputs with
  | [] => EOFError
  | line :: unread =>
      let user_input := strip line in
      if bool_decide (lower user_input = "exit") then Returned None unread
      else if bool_decide (user_input ∈ valid_options)
              || bool_decide (lower user_input = "ok")
      then Returned (Some user_input) unread
      else get_user_input valid_options unread
  end.

(** [get_valid_destination(driver, source_name, destinations,
    selected_destinations)]; the outer [None] means that the fuel that
    bounds the number of prompts ran out. *)
Fixpoint get_valid_destination (fuel : nat) (destinations : list string)
    (selected_destinations : list string) (inputs : list string)
    : option (Interaction (option (list string))) :=
  match fuel with
  | O => None
  | S fuel' =>
      match get_user_input (destinations ++ ["ok"]) inputs with
      | EOFError => Some EOFError
      | Returned destination_name unread =>
          if bool_decide (destination_name = Some "ok")
          then Some (Returned
                       (match selected_destinations with
                        | [] => None
                        | _ :: _ => Some selected_destinations
                        end) unread)
          else
            match destination_name with
            | Some name =>
                if bool_decide (name ≠ "") && bool_decide (name ∈ destinations)
                then get_valid_destination fuel'
                       (list_remove name destinations)
                       (selected_destinations ++ [name]) unread
                else get_valid_destination fuel' destinations
                       selected_destinations unread
            | None =>
                get_valid_destination fuel' destinations
                  selected_destinations unread
            end
      end
  end.
End Prompts.

(** * Specification vocabulary *)

(** ** Overlap *)
Section Overlap.
Context {A : Type} {EqA : EqDecision A} {CntA : Countable A} (cost_of : A → Z).

(** Total cost of the elements of a set. *)
Definition set_cost (X : gset A) : Z := sum (map cost_of (elements X)).

(** The overlap accumulated over a list of sets, starting from the visited
    set [V]. *)
Fixpoint overlap_total (V : gset A) (sets : list (gset A)) : Z :=
  match sets with
  | [] => 0
  | X :: rest => set_cost (X ∩ V) + overlap_total (V ∪ X) rest
  end.

(** [x] occurs in two different sets of the list. *)
Definition shared (sets : list (gset A)) (x : A) : Prop :=
  ∃ i j X Y, i ≠ j ∧ sets !! i = Some X ∧ sets !! j = Some Y ∧ x ∈ X ∧ x ∈ Y.
End Overlap.

(** No node and no edge occurs in two of the paths. *)
Definition no_overlap (paths : list PathItem) : Prop :=
  (∀ x, ¬ shared (map F1013.node_names paths) x)
  ∧ (∀ e, ¬ shared (map F1013.edge_names paths) e).

Section Costs.
Variable get_node_cost : string → Z.
Variable get_edge_cost : string * string → Z.

(** Every node and every edge that occurs in two of the paths costs
    nothing. *)
Definition overlap_is_free (paths : list PathItem) : Prop :=
  (∀ x, shared (map F1013.node_names paths) x → get_node_cost x = 0)
  ∧ (∀ e, shared (map F1013.edge_names paths) e → get_edge_cost e = 0).

(** The ['cost'] property of every node and relationship of the path is
    the cost the database returns for it. *)
Definition consistent (p : PathItem) : Prop :=
  match p with
  | PathObj p =>
      Forall (λ x, cost x = get_node_cost (device_name x)) (tail (nodes p))
      ∧ Forall (λ r, rel_cost r
                     = get_edge_cost (device_name (start_node r),
                                      device_name (end_node r)))
               (relationships p)
  | PathStr _ => True
  end.

(** The cost stored with every entry is the evaluator's cost of its
    paths. *)
Definition priced (l : list Scored) : Prop :=
  Forall (λ sc : Scored, sc.2 = total_cost_of get_node_cost get_edge_cost sc.1) l.
End Costs.

(** ** Result lists *)

(** An entry [a] blocks the insertion of [b]: same cost, and every entry
    of [b]'s path list is in [a]'s. *)
Definition dominates (a b : Scored) : Prop :=
  a.2 = b.2 ∧ ∀ p, p ∈ b.1 → p ∈ a.1.



(** Ascending by cost: every entry costs at most what any later one does. *)
Definition ascending (l : list Scored) : Prop :=
  StronglySorted (λ a b, a.2 ≤ b.2) l.

(** Ascending, and of at most 5 entries. *)
Definition ranked (l : list Scored) : Prop := ascending l ∧ (length l ≤ 5)%nat.

(** ** Destinations without a real path *)

(** Every candidate of the list is a string (or there is none). *)
Definition no_real_path (paths_and_costs : list Entry) : Prop :=
  Forall (λ pc : Entry, is_str pc.1 = true) paths_and_costs.

(** No chosen entry of the combination is a string. *)
Definition real_paths (c : Combination) : Prop :=
  Forall (λ pc : Entry, is_str pc.1 = false) c.

(** [d] is a key of the map, not yet visited, and has no real path. *)
Definition dead_destination (all_paths_info : PathsInfo) (visited : gset string)
    (d : string) : Prop :=
  (d ∉ visited)
  ∧ (∃ pcs, (d, pcs) ∈ all_paths_info)
  ∧ (∀ pcs, (d, pcs) ∈ all_paths_info → no_real_path pcs).

(** Placeholder substitution, as the specification describes it for a map
    with a destination that has no real path: combinations are produced,
    each has one slot per destination, and the slot of a destination
    without a real path holds a zero-cost placeholder. *)
Definition placeholder_coverage (all_paths_info : PathsInfo)
    (res : list Scored) : Prop :=
  res ≠ []
  ∧ ∀ sc : Scored, sc ∈ res →
      length sc.1 = length all_paths_info
      ∧ ∀ d pcs, (d, pcs) ∈ all_paths_info → no_real_path pcs →
          ∃ s, (PathStr s, 0) ∈ sc.1.

(** ** A small network

    Devices [S] (source), [D1], [D2], [D3] (destinations) cost 0 as
    [set_default_costs] sets them, [M] costs 3, every other device 1;
    every connection costs 1. *)
Definition example_node_cost (s : string) : Z :=
  if bool_decide (s ∈ ["S"; "D1"; "D2"; "D3"]) then 0
  else if bool_decide (s = "M") then 3 else 1.

Definition example_edge_cost (e : string * string) : Z := 1.

(** The path object the database returns for a route through the named
    devices. *)
Definition example_path (names : list string) : PathItem :=
  let ns := map (λ s, mkNode s (example_node_cost s)) names in
  PathObj
    (mkPath ns
       (zip_with (λ a b, mkRel a b (example_edge_cost (device_name a, device_name b)))
                 ns (tail ns))).

(** [str] of a path as the driver prints it: start, end and size. *)
Definition example_path_str (p : Path) : string :=
  "<Path start=" +:+ default "" (device_name <$> head (nodes p))
  +:+ " end=" +:+ default "" (device_name <$> last (nodes p))
  +:+ " size=" +:+ pretty (length (relationships p)) +:+ ">".

(** The candidate lists and path sets used as concrete inputs below. *)
Definition placeholder : Entry := (PathStr "no available path", 0).

Definition map_with_placeholder : PathsInfo :=
  [("D1", [(example_path ["S"; "X"; "D1"], 3)]); ("D2", [placeholder])].

Definition map_scenario_A : PathsInfo :=
  [("B", [(example_path ["A"; "X"; "B"], 10); (example_path ["A"; "Y"; "B"], 12)])].

Definition paths_sharing_free_node : list PathItem :=
  [example_path ["S"; "D1"]; example_path ["S"; "X"; "D1"; "D2"]].

Definition paths_sharing_M : list PathItem :=
  [example_path ["S"; "A"; "M"; "D1"]; example_path ["S"; "B"; "M"; "D2"]].

Definition three_paths : list PathItem :=
  [example_path ["S"; "M"; "D1"]; example_path ["S"; "M"; "D2"];
   example_path ["S"; "A"; "D3"]].

(** ** Multiplicity *)
Section Multiplicity.
Context {A : Type} {EqA : EqDecision A} {CntA : Countable A} (cost_of : A → Z).

(** In how many sets of the list [x] occurs. *)
Definition occurrences (x : A) (sets : list (gset A)) : nat :=
  length (filter (λ X : gset A, x ∈ X) sets).

(** Every element charged once for each occurrence beyond its first. *)
Definition surplus_cost (sets : list (gset A)) : Z :=
  sum (map (λ x, cost_of x * (Z.of_nat (occurrences x sets) - 1))
           (elements (⋃ sets))).
End Multiplicity.

(** ** Coverage *)

(** The combination holds one candidate of every destination of [ds] and
    nothing else. *)
Definition assigns (ds : PathsInfo) (c : Combination) : Prop :=
  ∃ ds', ds' ≡ₚ ds ∧ Forall2 (λ (pc : Entry) (d : string * list Entry), pc ∈ d.2) c ds'.

(** The destination has a candidate that is a path object. *)
Definition has_real_path (d : string * list Entry) : Prop :=
  ∃ pc, pc ∈ d.2 ∧ is_str pc.1 = false.

(** * Properties *)

(** ** [sum] *)

Lemma sum_shift (a : Z) (l : list Z) : foldl Z.add a l = a + sum l.
Proof.
  unfold sum. revert a.
  induction l as [|x l IH]; intros a; simpl; [lia|].
  rewrite (IH (a + x)), (IH (0 + x)). lia.
Qed.

Lemma sum_nil : sum [] = 0.
Proof. reflexivity. Qed.

Lemma sum_cons (x : Z) (l : list Z) : sum (x :: l) = x + sum l.
Proof. unfold sum at 1. simpl. rewrite sum_shift. lia. Qed.

Lemma sum_Permutation (l1 l2 : list Z) : l1 ≡ₚ l2 → sum l1 = sum l2.
Proof.
  induction 1 as [|x l1 l2 _ IH|x y l|l1 l2 l3 _ IH1 _ IH2];
    rewrite ?sum_cons; lia.
Qed.

Lemma sum_nonneg (l : list Z) : Forall (λ x, 0 ≤ x) l → 0 ≤ sum l.
Proof. induction 1; rewrite ?sum_nil, ?sum_cons; lia. Qed.

Lemma sum_zero_iff (l : list Z) :
  Forall (λ x, 0 ≤ x) l → sum l = 0 ↔ Forall (λ x, x = 0) l.
Proof.
  induction 1 as [|x l Hx Hl IH]; rewrite ?sum_nil, ?sum_cons.
  - split; [constructor|done].
  - pose proof (sum_nonneg l Hl). rewrite Forall_cons. split.
    + intros Hs. split; [lia|]. apply IH. lia.
    + intros [-> Hz]. apply IH in Hz. lia.
Qed.

Lemma filter_ext_in {B : Type} (P Q : B → Prop)
    {DP : ∀ x, Decision (P x)} {DQ : ∀ x, Decision (Q x)} (l : list B) :
  (∀ x, x ∈ l → P x ↔ Q x) → filter P l = filter Q l.
Proof.
  induction l as [|x l IH]; intros HPQ; [done|].
  rewrite !filter_cons. rewrite IH by (intros y Hy; apply HPQ; by right).
  destruct (decide (P x)) as [HP|HP], (decide (Q x)) as [HQ|HQ]; try done;
    exfalso; apply (HPQ x) in HP || apply HP, (HPQ x); try done; by left.
Qed.

(** ** The first-occurrence pass *)
Section VisitFacts.
Context {A : Type} {EqA : EqDecision A} {CntA : Countable A} (cost_of : A → Z).

Lemma set_cost_empty : set_cost cost_of ∅ = 0.
Proof. unfold set_cost. by rewrite elements_empty. Qed.

Lemma set_cost_singleton (x : A) : set_cost cost_of {[x]} = cost_of x.
Proof. unfold set_cost. rewrite elements_singleton. simpl. rewrite sum_cons, sum_nil. lia. Qed.

Lemma set_cost_nonneg (X : gset A) :
  (∀ x, 0 ≤ cost_of x) → 0 ≤ set_cost cost_of X.
Proof.
  intros Hc. apply sum_nonneg, Forall_forall.
  intros z [x [-> _]]%list_elem_of_fmap. apply Hc.
Qed.

Lemma set_cost_zero_iff (X : gset A) :
  (∀ x, 0 ≤ cost_of x) → set_cost cost_of X = 0 ↔ ∀ x, x ∈ X → cost_of x = 0.
Proof.
  intros Hc. unfold set_cost. rewrite sum_zero_iff.
  - rewrite Forall_forall. split.
    + intros Hz x Hx. apply Hz, list_elem_of_fmap. exists x. by rewrite elem_of_elements.
    + intros Hz z [x [-> Hx]]%list_elem_of_fmap. apply Hz. by apply elem_of_elements.
  - apply Forall_forall. intros z [x [-> _]]%list_elem_of_fmap. apply Hc.
Qed.

(** The loop over a duplicate-free list charges exactly the elements that
    were visited before the loop started, whatever the order. *)
Lemma visit_list_spec (l : list A) (V : gset A) (c : Z) :
  NoDup l →
  foldl (visit cost_of) (V, c) l
  = (V ∪ list_to_set l, c + sum (map cost_of (filter (λ x, x ∈ V) l))).
Proof.
  intros Hl. revert V c.
  induction Hl as [|x l Hx Hl IH]; intros V c; simpl.
  - rewrite sum_nil. f_equal; [set_solver | lia].
  - rewrite IH. f_equal; [set_solver|].
    assert (filter (λ y, y ∈ V ∪ {[x]}) l = filter (λ y, y ∈ V) l) as ->.
    { apply filter_ext_in. intros y Hy. set_solver. }
    rewrite filter_cons. case_bool_decide; case_decide; try done.
    simpl. rewrite sum_cons. lia.
Qed.

Lemma visit_all_spec (X V : gset A) (c : Z) :
  visit_all cost_of (V, c) X = (V ∪ X, c + set_cost cost_of (X ∩ V)).
Proof.
  unfold visit_all. rewrite visit_list_spec by apply NoDup_elements.
  rewrite list_to_set_elements_L. do 2 f_equal.
  unfold set_cost. apply sum_Permutation, fmap_Permutation.
  apply NoDup_Permutation.
  - apply NoDup_filter, NoDup_elements.
  - apply NoDup_elements.
  - intros x. rewrite list_elem_of_filter, !elem_of_elements. set_solver.
Qed.

(** The outcome does not depend on the order in which the set is walked. *)
Lemma visit_order_irrelevant (l : list A) (X V : gset A) (c : Z) :
  l ≡ₚ elements X → foldl (visit cost_of) (V, c) l = visit_all cost_of (V, c) X.
Proof.
  intros Hl. unfold visit_all.
  rewrite !visit_list_spec; [|apply NoDup_elements|by rewrite Hl; apply NoDup_elements].
  f_equal.
  - apply set_eq. intros x. rewrite !elem_of_union, !elem_of_list_to_set.
    by rewrite Hl.
  - f_equal. apply sum_Permutation, fmap_Permutation. by rewrite Hl.
Qed.

Lemma visit_all_fold (sets : list (gset A)) (V : gset A) (c : Z) :
  foldl (visit_all cost_of) (V, c) sets = (V ∪ ⋃ sets, c + overlap_total cost_of V sets).
Proof.
  revert V c. induction sets as [|X sets IH]; intros V c; simpl.
  - f_equal; [set_solver | lia].
  - rewrite visit_all_spec, IH. f_equal; [set_solver | lia].
Qed.

Lemma overlap_total_nonneg (V : gset A) (sets : list (gset A)) :
  (∀ x, 0 ≤ cost_of x) → 0 ≤ overlap_total cost_of V sets.
Proof.
  intros Hc. revert V. induction sets as [|X sets IH]; intros V; simpl; [lia|].
  pose proof (set_cost_nonneg (X ∩ V) Hc). specialize (IH (V ∪ X)). lia.
Qed.

Lemma shared_cons (X : gset A) (sets : list (gset A)) (x : A) :
  shared (X :: sets) x ↔ (x ∈ X ∧ ∃ Y, Y ∈ sets ∧ x ∈ Y) ∨ shared sets x.
Proof.
  split.
  - intros (i & j & Xi & Xj & Hij & Hi & Hj & Hxi & Hxj).
    destruct i as [|i], j as [|j]; simpl in *; simplify_eq.
    + left. split; [done|]. exists Xj. split; [|done]. by eapply list_elem_of_lookup_2.
    + left. split; [done|]. exists Xi. split; [|done]. by eapply list_elem_of_lookup_2.
    + right. exists i, j, Xi, Xj. repeat split; try done. congruence.
  - intros [[Hx (Y & [j Hj]%list_elem_of_lookup_1 & HxY)] | (i & j & Xi & Xj & Hij & Hi & Hj & Hxi & Hxj)].
    + exists 0%nat, (S j), X, Y. repeat split; done.
    + exists (S i), (S j), Xi, Xj. repeat split; try done. congruence.
Qed.

Lemma overlap_total_zero_iff (V : gset A) (sets : list (gset A)) :
  (∀ x, 0 ≤ cost_of x) →
  overlap_total cost_of V sets = 0
  ↔ ∀ x, (x ∈ V ∧ ∃ Y, Y ∈ sets ∧ x ∈ Y) ∨ shared sets x → cost_of x = 0.
Proof.
  intros Hc. revert V. induction sets as [|X sets IH]; intros V; simpl.
  - split; [|done]. intros _ x [(_ & Y & HY & _) | (i & j & Xi & Xj & _ & Hi & _)].
    + by apply elem_of_nil in HY.
    + by rewrite lookup_nil in Hi.
  - pose proof (set_cost_nonneg (X ∩ V) Hc).
    pose proof (overlap_total_nonneg (V ∪ X) sets Hc).
    split.
    + intros Hz x Hx.
      assert (set_cost cost_of (X ∩ V) = 0) as Hz1 by lia.
      assert (overlap_total cost_of (V ∪ X) sets = 0) as Hz2 by lia.
      rewrite set_cost_zero_iff in Hz1 by done. rewrite IH in Hz2.
      rewrite shared_cons in Hx.
      destruct Hx as [(HxV & Y & [->|HY]%elem_of_cons & HxY) | [(HxX & Y & HY & HxY) | Hs]].
      * apply Hz1. set_solver.
      * apply Hz2. left. split; [set_solver|]. by exists Y.
      * apply Hz2. left. split; [set_solver|]. by exists Y.
      * apply Hz2. by right.
    + intros Hz.
      assert (set_cost cost_of (X ∩ V) = 0) as ->.
      { apply set_cost_zero_iff; [done|]. intros x [HxX HxV]%elem_of_intersection.
        apply Hz. left. split; [done|]. exists X. split; [left|done]. }
      assert (overlap_total cost_of (V ∪ X) sets = 0) as ->; [|done].
      apply IH. intros x [([HxV|HxX]%elem_of_union & Y & HY & HxY) | Hs]; apply Hz.
      * left. split; [done|]. exists Y. split; [by right|done].
      * right. apply shared_cons. left. split; [done|]. by exists Y.
      * right. apply shared_cons. by right.
Qed.
End VisitFacts.

(** ** The evaluator of [1013.py] in closed form *)
Section EvaluatorFacts.
Variable get_node_cost : string → Z.
Variable get_edge_cost : string * string → Z.

Lemma eval_step_fold (paths : list PathItem) (st : F1013.EvalState) :
  foldl (F1013.eval_step get_node_cost get_edge_cost) st
        (zip (map F1013.node_names paths) (map F1013.edge_names paths))
  = (foldl (visit_all get_node_cost) st.1 (map F1013.node_names paths),
     foldl (visit_all get_edge_cost) st.2 (map F1013.edge_names paths)).
Proof.
  revert st. induction paths as [|p paths IH]; intros [sn se]; simpl; [done|].
  by rewrite IH.
Qed.

(** The true cost is the sum of the raw costs minus what the
    re-occurrences of nodes and of edges cost; the returned set is the set
    of all visited nodes. *)
Lemma calculate_total_path_cost_spec (paths : list PathItem) (sub_costs : list Z) :
  F1013.calculate_total_path_cost get_node_cost get_edge_cost paths sub_costs
  = (sum sub_costs
     - overlap_total get_node_cost ∅ (map F1013.node_names paths)
     - overlap_total get_edge_cost ∅ (map F1013.edge_names paths),
     ⋃ (map F1013.node_names paths)).
Proof.
  unfold F1013.calculate_total_path_cost.
  rewrite eval_step_fold. simpl. rewrite !visit_all_fold.
  rewrite union_empty_l_L. apply pair_equal_spec. split; [lia | done].
Qed.

Lemma no_overlap_is_free (paths : list PathItem) :
  no_overlap paths → overlap_is_free get_node_cost get_edge_cost paths.
Proof. intros [Hn He]. split; intros x Hx; [by apply Hn in Hx | by apply He in Hx]. Qed.

Lemma total_cost_le_and_eq_iff (paths : list PathItem) (sub_costs : list Z) :
  (∀ x, 0 ≤ get_node_cost x) →
  (∀ e, 0 ≤ get_edge_cost e) →
  let total :=
    (F1013.calculate_total_path_cost get_node_cost get_edge_cost paths sub_costs).1 in
  total ≤ sum sub_costs ∧ (total = sum sub_costs ↔ overlap_is_free get_node_cost get_edge_cost paths).
Proof.
  intros Hn He. rewrite calculate_total_path_cost_spec. simpl.
  pose proof (overlap_total_nonneg get_node_cost ∅ (map F1013.node_names paths) Hn) as H1.
  pose proof (overlap_total_nonneg get_edge_cost ∅ (map F1013.edge_names paths) He) as H2.
  pose proof (overlap_total_zero_iff get_node_cost ∅ (map F1013.node_names paths) Hn) as Z1.
  pose proof (overlap_total_zero_iff get_edge_cost ∅ (map F1013.edge_names paths) He) as Z2.
  split; [lia|]. unfold overlap_is_free. split.
  - intros Heq. split.
    + intros x Hx. apply Z1; [lia | by right].
    + intros e Hx. apply Z2; [lia | by right].
  - intros [Fn Fe].
    assert (overlap_total get_node_cost ∅ (map F1013.node_names paths) = 0) as ->.
    { apply Z1. intros x [[Hx _]|Hx]; [set_solver | by apply Fn]. }
    assert (overlap_total get_edge_cost ∅ (map F1013.edge_names paths) = 0) as ->.
    { apply Z2. intros x [[Hx _]|Hx]; [set_solver | by apply Fe]. }
    lia.
Qed.

Lemma total_cost_single (p : PathItem) (c : Z) :
  F1013.calculate_total_path_cost get_node_cost get_edge_cost [p] [c]
  = (c, F1013.node_names p).
Proof.
  rewrite calculate_total_path_cost_spec. simpl.
  rewrite !intersection_empty_r_L, !set_cost_empty, sum_cons, sum_nil.
  apply pair_equal_spec. split; [lia | set_solver].
Qed.

Lemma total_cost_pair (p1 p2 : PathItem) (sub_costs : list Z) :
  (F1013.calculate_total_path_cost get_node_cost get_edge_cost [p1; p2] sub_costs).1
  = sum sub_costs
    - set_cost get_node_cost (F1013.node_names p1 ∩ F1013.node_names p2)
    - set_cost get_edge_cost (F1013.edge_names p1 ∩ F1013.edge_names p2).
Proof.
  rewrite calculate_total_path_cost_spec. simpl.
  rewrite !intersection_empty_r_L, !set_cost_empty, !union_empty_l_L.
  rewrite (intersection_comm_L (F1013.node_names p2)).
  rewrite (intersection_comm_L (F1013.edge_names p2)). lia.
Qed.
End EvaluatorFacts.

(** ** The evaluator of [userStory4.py] *)

Lemma userStory4_total_cost_single (p : PathItem) (c : Z) :
  UserStory4.calculate_total_path_cost [p] [c] = (c, ∅).
Proof.
  unfold UserStory4.calculate_total_path_cost. simpl.
  rewrite !elements_empty. simpl.
  rewrite sum_cons, sum_nil, set_map_empty. apply pair_equal_spec. split; [lia | done].
Qed.

Lemma userStory4_total_cost_pair (p1 p2 : PathItem) (sub_costs : list Z) :
  (UserStory4.calculate_total_path_cost [p1; p2] sub_costs).1
  = sum sub_costs
    - set_cost snd (UserStory4.node_pairs p1 ∩ UserStory4.node_pairs p2)
    - set_cost snd (UserStory4.rel_triples p1 ∩ UserStory4.rel_triples p2).
Proof.
  unfold UserStory4.calculate_total_path_cost, set_cost. simpl.
  lia.
Qed.

(** ** The two evaluators on paths that carry the database's costs *)
Section Consistency.
Variable get_node_cost : string → Z.
Variable get_edge_cost : string * string → Z.

Lemma tagged_set {B K : Type} `{Countable K} (name : B → K) (c : B → Z)
    (g : K → Z) (l : list B) :
  Forall (λ x, c x = g (name x)) l →
  list_to_set (map (λ x, (name x, c x)) l)
  =@{gset (K * Z)} set_map (λ k, (k, g k)) (list_to_set (map name l) : gset K).
Proof.
  intros Hl. apply set_eq. intros [k z].
  rewrite elem_of_list_to_set, elem_of_map, list_elem_of_fmap.
  rewrite Forall_forall in Hl. split.
  - intros (x & [= -> ->] & Hx). exists (name x). split; [by rewrite Hl|].
    apply elem_of_list_to_set, list_elem_of_fmap. by exists x.
  - intros (k' & [= -> ->] & (x & -> & Hx)%elem_of_list_to_set%list_elem_of_fmap).
    exists x. split; [by rewrite Hl|done].
Qed.

Lemma set_cost_tagged {K : Type} `{Countable K} (g : K → Z) (X Y : gset K) :
  set_cost snd (set_map (λ k, (k, g k)) X ∩ set_map (λ k, (k, g k)) Y : gset (K * Z))
  = set_cost g (X ∩ Y).
Proof.
  assert (set_map (λ k, (k, g k)) X ∩ set_map (λ k, (k, g k)) Y
          =@{gset (K * Z)} set_map (λ k, (k, g k)) (X ∩ Y)) as ->.
  { apply set_eq. intros [k z].
    rewrite elem_of_intersection, !elem_of_map. split.
    - intros [(k1 & [= -> ->] & H1) (k2 & [= -> _] & H2)]. exists k2. set_solver.
    - intros (k' & [= -> ->] & [??]%elem_of_intersection). split; by exists k'. }
  unfold set_cost, set_map.
  rewrite (sum_Permutation _ (map snd ((λ k, (k, g k)) <$> elements (X ∩ Y)))).
  - by rewrite <- list_fmap_compose.
  - apply fmap_Permutation, elements_list_to_set.
    apply NoDup_fmap_2; [|apply NoDup_elements]. by intros k1 k2 [= ->].
Qed.

Lemma node_pairs_consistent (p : PathItem) :
  consistent get_node_cost get_edge_cost p →
  UserStory4.node_pairs p = set_map (λ s, (s, get_node_cost s)) (F1013.node_names p).
Proof.
  destruct p as [p|s]; simpl; [|by rewrite set_map_empty].
  intros [Hn _]. by apply tagged_set.
Qed.

Lemma rel_triples_consistent (p : PathItem) :
  consistent get_node_cost get_edge_cost p →
  UserStory4.rel_triples p = set_map (λ e, (e, get_edge_cost e)) (F1013.edge_names p).
Proof.
  destruct p as [p|s]; simpl; [|by rewrite set_map_empty].
  intros [_ He].
  by apply (tagged_set (λ r, (device_name (start_node r), device_name (end_node r)))
                       rel_cost get_edge_cost).
Qed.

(** On two paths, the set the evaluator of [userStory4.py] returns is the
    set of the nodes the two paths have in common. *)
Lemma userStory4_returns_common_nodes (p1 p2 : PathItem) (sub_costs : list Z) :
  consistent get_node_cost get_edge_cost p1 →
  consistent get_node_cost get_edge_cost p2 →
  (UserStory4.calculate_total_path_cost [p1; p2] sub_costs).2
  = F1013.node_names p1 ∩ F1013.node_names p2.
Proof.
  intros H1 H2. unfold UserStory4.calculate_total_path_cost. simpl.
  rewrite !node_pairs_consistent by done.
  apply set_eq. intros x.
  rewrite elem_of_map, elem_of_intersection. split.
  - intros ([k z] & -> & [Hk1 Hk2]%elem_of_intersection). simpl.
    apply elem_of_map in Hk1 as (k1 & [= -> ->] & Hk1).
    apply elem_of_map in Hk2 as (k2 & [= -> _] & Hk2). done.
  - intros [Hx1 Hx2]. exists (x, get_node_cost x). split; [done|].
    apply elem_of_intersection. split; apply elem_of_map; by exists x.
Qed.

Lemma evaluators_agree_on_pairs (p1 p2 : PathItem) (sub_costs : list Z) :
  consistent get_node_cost get_edge_cost p1 → consistent get_node_cost get_edge_cost p2 →
  (F1013.calculate_total_path_cost get_node_cost get_edge_cost [p1; p2] sub_costs).1
  = (UserStory4.calculate_total_path_cost [p1; p2] sub_costs).1.
Proof.
  intros H1 H2. rewrite total_cost_pair, userStory4_total_cost_pair.
  rewrite !node_pairs_consistent, !rel_triples_consistent by done.
  by rewrite !set_cost_tagged.
Qed.
End Consistency.

(** ** Deduplication *)

Lemma path_already_exists_spec (paths_costs : list Scored)
    (new_path : Combination) (new_cost : Z) :
  path_already_exists paths_costs new_path new_cost = true
  ↔ ∃ a, a ∈ paths_costs ∧ dominates a (new_path, new_cost).
Proof.
  induction paths_costs as [|[path c] rest IH]; simpl.
  - split; [done|]. intros (a & Ha & _). by apply elem_of_nil in Ha.
  - destruct (bool_decide (c = new_cost)
              && forallb (λ p, bool_decide (p ∈ path)) new_path) eqn:E.
    + split; [intros _|done]. exists (path, c). split; [left|].
      apply andb_true_iff in E as [Ec Ep]. apply bool_decide_eq_true in Ec.
      split; [done|]. simpl. intros p Hp. rewrite forallb_forall in Ep.
      apply list_elem_of_In, Ep in Hp. by apply bool_decide_eq_true in Hp.
    + rewrite IH. split.
      * intros (a & Ha & Hd). exists a. split; [by right|done].
      * intros (a & [->|Ha]%elem_of_cons & Hd); [|by exists a].
        destruct Hd as [Hc Hp]. simpl in *. subst c.
        rewrite bool_decide_eq_true_2 in E by done. simpl in E.
        apply not_true_iff_false in E. exfalso. apply E, forallb_forall.
        intros p Hp'%list_elem_of_In. apply bool_decide_eq_true. by apply Hp.
Qed.




Lemma add_results_elem_of (combined subs : list Scored) (a : Scored) :
  a ∈ add_results combined subs → a ∈ combined ∨ a ∈ subs.
Proof.
  unfold add_results. revert combined.
  induction subs as [|s subs IH]; intros combined; simpl; [by left|].
  intros [Ha|Ha]%IH; [|right; by right].
  unfold add_result in Ha. destruct (path_already_exists _ _ _); [by left|].
  apply elem_of_app in Ha as [Ha| ->%list_elem_of_singleton]; [by left|right; left].
Qed.



(** ** Ranking *)

Lemma insert_by_cost_perm (x : Scored) (l : list Scored) :
  insert_by_cost x l ≡ₚ x :: l.
Proof.
  induction l as [|y l IH]; simpl; [done|].
  case_bool_decide; [done|]. rewrite IH. apply Permutation_swap.
Qed.

Lemma sort_by_cost_perm (l : list Scored) : sort_by_cost l ≡ₚ l.
Proof.
  induction l as [|x l IH]; simpl; [done|].
  by rewrite insert_by_cost_perm, IH.
Qed.

Lemma insert_by_cost_ascending (x : Scored) (l : list Scored) :
  ascending l → ascending (insert_by_cost x l).
Proof.
  induction 1 as [|y l Hl IH Hy]; simpl.
  - repeat constructor.
  - case_bool_decide as Hxy.
    + constructor; [by constructor|]. constructor; [done|].
      eapply Forall_impl; [exact Hy|]. simpl. intros z Hz. lia.
    + constructor; [done|]. rewrite insert_by_cost_perm.
      constructor; [lia|done].
Qed.

Lemma sort_by_cost_sorted (l : list Scored) : ascending (sort_by_cost l).
Proof.
  induction l as [|x l IH]; simpl; [constructor|].
  by apply insert_by_cost_ascending.
Qed.

(** The sort is stable: entries of equal cost keep their order. *)
Lemma insert_by_cost_stable (c : Z) (x : Scored) (l : list Scored) :
  filter (λ a : Scored, a.2 = c) (insert_by_cost x l)
  = filter (λ a : Scored, a.2 = c) (x :: l).
Proof.
  induction l as [|y l IH]; simpl; [done|].
  case_bool_decide as Hxy; [done|].
  rewrite (filter_cons _ y), IH, !(filter_cons _ x), !(filter_cons _ y).
  repeat case_decide; try done. lia.
Qed.

Lemma sort_by_cost_stable (c : Z) (l : list Scored) :
  filter (λ a : Scored, a.2 = c) (sort_by_cost l) = filter (λ a : Scored, a.2 = c) l.
Proof.
  induction l as [|x l IH]; simpl; [done|].
  by rewrite insert_by_cost_stable, !filter_cons, IH.
Qed.



Lemma StronglySorted_take {B : Type} (R : relation B) (n : nat) (l : list B) :
  StronglySorted R l → StronglySorted R (take n l).
Proof.
  intros Hl. rewrite <- (take_drop n l) in Hl.
  by apply StronglySorted_app_1_l in Hl.
Qed.

(** ** Loops and the recursion *)

(** A loop whose body keeps an invariant and always returns, returns, and
    keeps the invariant. *)
Lemma for_each_inv {A St : Type} (I : St → Prop) (body : St → A → option St)
    (l : list A) (st : St) :
  I st →
  (∀ st x, x ∈ l → I st → ∃ st', body st x = Some st' ∧ I st') →
  ∃ st', for_each body l st = Some st' ∧ I st'.
Proof.
  revert st. induction l as [|x l IH]; intros st Hst Hbody; simpl.
  - by exists st.
  - destruct (Hbody st x) as (st1 & -> & Hst1); [left|done|].
    apply IH; [done|]. intros st2 y Hy. apply Hbody. by right.
Qed.

Lemma for_each_mono {A St : Type} (body body' : St → A → option St)
    (l : list A) (st st' : St) :
  (∀ s x s', body s x = Some s' → body' s x = Some s') →
  for_each body l st = Some st' → for_each body' l st = Some st'.
Proof.
  intros Hb. revert st. induction l as [|x l IH]; intros st; simpl; [done|].
  destruct (body st x) as [s1|] eqn:E; [|done].
  rewrite (Hb _ _ _ E). apply IH.
Qed.

(** Choosing a destination of the map leaves strictly fewer of them. *)
Lemma remaining_destinations_shrink (all_paths_info : PathsInfo)
    (d : string * list Entry) (visited_destinations : gset string) :
  d ∈ all_paths_info →
  (length (remaining_destinations all_paths_info (visited_destinations ∪ {[d.1]}))
   < length all_paths_info)%nat.
Proof.
  intros Hd. unfold remaining_destinations.
  apply (length_filter_lt _ _ d); [done|]. set_solver.
Qed.

Section SearchInvariant.
Variable get_node_cost : string → Z.
Variable get_edge_cost : string * string → Z.
Variable path_str : Path → string.

(** [Ctx]: what is known of the arguments of a call; [Res]: what is shown
    of every result list; [Acc]: what the loops keep of
    [combined_paths_costs]. *)
Variable Ctx : PathsInfo → Combination → Z → gset string → Prop.
Variable Res : list Scored → Prop.
Variable Acc : list Scored → Prop.

Hypothesis Ctx_terminal :
  ∀ current_path current_cost visited,
    Ctx [] current_path current_cost visited → Res [(current_path, current_cost)].
Hypothesis Ctx_step :
  ∀ all_paths_info current_path current_cost visited d pc,
    Ctx all_paths_info current_path current_cost visited →
    d ∈ all_paths_info → d.1 ∉ visited → pc ∈ d.2 → is_str pc.1 = false →
    Ctx (remaining_destinations all_paths_info (visited ∪ {[d.1]}))
        (current_path ++ [pc])
        (total_cost_of get_node_cost get_edge_cost (current_path ++ [pc]))
        (visited ∪ {[d.1]}).
Hypothesis Acc_nil : Acc [].
Hypothesis Acc_add :
  ∀ combined subs, Acc combined → Res subs → Acc (add_results combined subs).
Hypothesis Acc_result :
  ∀ combined, Acc combined → Res (take 5 (sort_by_cost combined)).

Lemma search_invariant (fuel : nat) (all_paths_info : PathsInfo)
    (current_path : Combination) (current_cost : Z) (visited : gset string)
    (memo : Memo) :
  (length all_paths_info < fuel)%nat →
  Ctx all_paths_info current_path current_cost visited →
  map_Forall (λ _, Res) memo →
  ∃ res memo',
    calculate_combined_paths_cost_rec get_node_cost get_edge_cost path_str fuel
      all_paths_info current_path current_cost visited memo = Some (res, memo')
    ∧ Res res ∧ map_Forall (λ _, Res) memo'.
Proof.
  revert all_paths_info current_path current_cost visited memo.
  induction fuel as [|fuel IH];
    intros all_paths_info current_path current_cost visited memo Hlen HCtx Hmemo;
    [lia|].
  simpl. unfold search_body.
  destruct all_paths_info as [|d0 rest] eqn:Em.
  { eexists _, _. split; [done|]. split; [by eapply Ctx_terminal|done]. }
  rewrite <- Em in *. clear Em d0 rest.
  destruct (memo !! _) as [r|] eqn:Ememo.
  { exists r, memo. split; [done|]. split; [|done]. by apply (Hmemo _ _ Ememo). }
  set (I := λ st : list Scored * Memo, Acc st.1 ∧ map_Forall (λ _, Res) st.2).
  destruct (for_each_inv I
              (try_destination get_node_cost get_edge_cost
                 (calculate_combined_paths_cost_rec get_node_cost get_edge_cost
                    path_str fuel) all_paths_info current_path visited)
              all_paths_info ([], memo))
    as ([combined memo1] & -> & Hacc & Hmemo1).
  - by split.
  - intros st d Hd Hst. unfold try_destination.
    case_bool_decide as Hvis; [by exists st|].
    apply for_each_inv; [done|].
    intros st1 pc Hpc [Hacc1 Hmemo1]. unfold try_path.
    destruct (is_str pc.1) eqn:Estr; [by exists st1|].
    destruct (IH (remaining_destinations all_paths_info (visited ∪ {[d.1]}))
                 (current_path ++ [pc])
                 (total_cost_of get_node_cost get_edge_cost (current_path ++ [pc]))
                 (visited ∪ {[d.1]}) st1.2)
      as (subs & memo2 & -> & Hsubs & Hmemo2).
    + pose proof (remaining_destinations_shrink all_paths_info d visited Hd). lia.
    + by eapply Ctx_step.
    + done.
    + eexists. split; [done|]. split; [by apply Acc_add|done].
  - eexists _, _. split; [done|]. simpl in *. split; [by apply Acc_result|].
    apply map_Forall_insert_2; [by apply Acc_result|done].
Qed.
End SearchInvariant.

Section SearchFacts.
Variable get_node_cost : string → Z.
Variable get_edge_cost : string * string → Z.
Variable path_str : Path → string.

Local Abbreviation search_rec :=
  (calculate_combined_paths_cost_rec get_node_cost get_edge_cost path_str).
Local Abbreviation true_cost := (total_cost_of get_node_cost get_edge_cost).
Local Abbreviation priced := (priced get_node_cost get_edge_cost).

(** More fuel never changes a result. *)
Lemma search_fuel_mono (fuel fuel' : nat) (all_paths_info : PathsInfo)
    (current_path : Combination) (current_cost : Z) (visited : gset string)
    (memo : Memo) (r : list Scored * Memo) :
  (fuel ≤ fuel')%nat →
  search_rec fuel all_paths_info current_path current_cost visited memo = Some r →
  search_rec fuel' all_paths_info current_path current_cost visited memo = Some r.
Proof.
  revert fuel' all_paths_info current_path current_cost visited memo r.
  induction fuel as [|fuel IH];
    intros fuel' all_paths_info current_path current_cost visited memo r Hle;
    [done|].
  destruct fuel' as [|fuel']; [lia|]. simpl. unfold search_body.
  destruct all_paths_info as [|d0 rest]; [done|].
  destruct (memo !! _); [done|].
  destruct (for_each _ _ _) as [[combined memo1]|] eqn:E; [|done].
  intros <-.
  eapply for_each_mono in E; [by rewrite E|].
  intros st d st'. unfold try_destination.
  case_bool_decide; [done|]. apply for_each_mono.
  intros st1 pc st1'. unfold try_path.
  destruct (is_str pc.1); [done|].
  destruct (calculate_combined_paths_cost_rec _ _ _ fuel _ _ _ _ _)
    as [[subs memo2]|] eqn:E2; [|done].
  by rewrite (IH fuel' _ _ _ _ _ _ ltac:(lia) E2).
Qed.

(** The recursion is never deeper than the number of destinations. *)
Lemma search_terminates (all_paths_info : PathsInfo) (current_path : Combination)
    (current_cost : Z) (visited : gset string) (memo : Memo) :
  ∃ r, ∀ k,
    search_rec (S (length all_paths_info) + k) all_paths_info current_path
               current_cost visited memo = Some r.
Proof.
  destruct (search_invariant get_node_cost get_edge_cost path_str
              (λ _ _ _ _, True) (λ _, True) (λ _, True)
              ltac:(done) ltac:(done) ltac:(done) ltac:(done) ltac:(done)
              (S (length all_paths_info)) all_paths_info current_path
              current_cost visited memo)
    as (res & memo' & Hr & _); [lia|done|by intros ???|].
  exists (res, memo'). intros k.
  apply (search_fuel_mono (S (length all_paths_info))); [lia|done].
Qed.

(** *** Ranking and size of every result *)

Lemma ranked_take_sort (combined : list Scored) :
  ranked (take 5 (sort_by_cost combined)).
Proof.
  split.
  - apply StronglySorted_take, sort_by_cost_sorted.
  - rewrite length_take. lia.
Qed.

Lemma search_ranked (fuel : nat) (all_paths_info : PathsInfo)
    (current_path : Combination) (current_cost : Z) (visited : gset string)
    (memo : Memo) :
  (length all_paths_info < fuel)%nat →
  map_Forall (λ _, ranked) memo →
  ∃ res memo',
    search_rec fuel all_paths_info current_path current_cost visited memo
    = Some (res, memo')
    ∧ ranked res ∧ map_Forall (λ _, ranked) memo'.
Proof.
  intros Hlen Hmemo.
  apply (search_invariant get_node_cost get_edge_cost path_str
           (λ _ _ _ _, True) ranked (λ _, True)); try done.
  - intros. split; [repeat constructor | simpl; lia].
  - intros. apply ranked_take_sort.
Qed.

(** *** Deduplication of every result *)


(** *** The cost of every result is the evaluator's cost of its paths *)

Lemma search_priced (fuel : nat) (all_paths_info : PathsInfo)
    (current_path : Combination) (current_cost : Z) (visited : gset string)
    (memo : Memo) :
  (length all_paths_info < fuel)%nat →
  current_cost = true_cost current_path →
  map_Forall (λ _, priced) memo →
  ∃ res memo',
    search_rec fuel all_paths_info current_path current_cost visited memo
    = Some (res, memo')
    ∧ priced res ∧ map_Forall (λ _, priced) memo'.
Proof.
  intros Hlen Hcost Hmemo.
  apply (search_invariant get_node_cost get_edge_cost path_str
           (λ _ cp cc _, cc = true_cost cp) priced priced); try done.
  - intros cp cc _ ->. by repeat constructor.
  - constructor.
  - intros combined subs Hc Hs. apply Forall_forall. intros a Ha.
    unfold priced in *. rewrite Forall_forall in Hc, Hs.
    apply add_results_elem_of in Ha as [Ha|Ha]; auto.
  - intros combined Hc. apply Forall_take. unfold priced.
    by rewrite sort_by_cost_perm.
Qed.

(** *** Strings never enter a combination *)

Lemma search_real_paths (fuel : nat) (all_paths_info : PathsInfo)
    (current_path : Combination) (current_cost : Z) (visited : gset string)
    (memo : Memo) :
  (length all_paths_info < fuel)%nat →
  real_paths current_path →
  map_Forall (λ _, Forall (λ sc : Scored, real_paths sc.1)) memo →
  ∃ res memo',
    search_rec fuel all_paths_info current_path current_cost visited memo
    = Some (res, memo')
    ∧ Forall (λ sc : Scored, real_paths sc.1) res
    ∧ map_Forall (λ _, Forall (λ sc : Scored, real_paths sc.1)) memo'.
Proof.
  intros Hlen Hcp Hmemo.
  apply (search_invariant get_node_cost get_edge_cost path_str
           (λ _ cp _ _, real_paths cp)
           (Forall (λ sc : Scored, real_paths sc.1))
           (Forall (λ sc : Scored, real_paths sc.1))); try done.
  - intros cp cc _ Hreal. by repeat constructor.
  - intros m cp _ vis d pc Hreal _ _ _ Hstr.
    apply Forall_app. split; [done|]. by repeat constructor.
  - intros combined subs Hc Hs. apply Forall_forall. intros a Ha.
    rewrite Forall_forall in Hc, Hs.
    apply add_results_elem_of in Ha as [Ha|Ha]; auto.
  - intros combined Hc. apply Forall_take. by rewrite sort_by_cost_perm.
Qed.

(** *** A destination without a real path *)

Lemma search_dead_destination (fuel : nat) (all_paths_info : PathsInfo)
    (current_path : Combination) (current_cost : Z) (visited : gset string)
    (memo : Memo) :
  (length all_paths_info < fuel)%nat →
  (∃ d, dead_destination all_paths_info visited d) →
  map_Forall (λ _ r, r = []) memo →
  ∃ res memo',
    search_rec fuel all_paths_info current_path current_cost visited memo
    = Some (res, memo')
    ∧ res = [] ∧ map_Forall (λ _ r, r = []) memo'.
Proof.
  intros Hlen Hdead Hmemo.
  apply (search_invariant get_node_cost get_edge_cost path_str
           (λ m _ _ vis, ∃ d, dead_destination m vis d)
           (λ r, r = []) (λ r, r = [])); try done.
  - intros cp cc vis (d & _ & (pcs & Hin) & _). by apply elem_of_nil in Hin.
  - intros m _ _ vis [d pcs] pc (d0 & Hvis0 & (pcs0 & Hin0) & Hdead0) Hd Hvis Hpc Hstr.
    simpl in *. exists d0.
    assert (d ≠ d0) as Hne.
    { intros ->. specialize (Hdead0 pcs Hd). unfold no_real_path in Hdead0.
      rewrite Forall_forall in Hdead0. apply Hdead0 in Hpc. congruence. }
    split; [set_solver|]. split.
    + exists pcs0. apply list_elem_of_filter. split; [set_solver|done].
    + intros pcs1 [_ Hin1]%list_elem_of_filter. by apply Hdead0.
  - by intros ?? -> ->.
  - by intros ? ->.
Qed.
End SearchFacts.

(** ** [find_all_paths_to_destinations] *)

Lemma dict_set_elem_of (d : PathsInfo) (k : string) (v : list Entry)
    (e : string * list Entry) :
  e ∈ dict_set d k v → e = (k, v) ∨ e ∈ d.
Proof.
  induction d as [|[k' v'] d IH]; simpl.
  - intros ->%list_elem_of_singleton. by left.
  - case_bool_decide.
    + intros [->|He]%elem_of_cons; [by left|right; by right].
    + intros [->|He]%elem_of_cons; [right; left|].
      destruct (IH He) as [->|?]; [by left|right; by right].
Qed.

(** The map holds the query's records under each key, and no key for
    which the query returned nothing. *)
Lemma find_all_paths_elem_of (run_query : string → list Entry)
    (destination_names : list string) (d : string) (pcs : list Entry) :
  (d, pcs) ∈ find_all_paths_to_destinations run_query destination_names →
  pcs = run_query d ∧ pcs ≠ [].
Proof.
  unfold find_all_paths_to_destinations.
  assert (∀ acc : PathsInfo,
            (∀ e, e ∈ acc → e.2 = run_query e.1 ∧ e.2 ≠ []) →
            ∀ e, e ∈ foldl (λ all_paths_info destination_name,
                         match run_query destination_name with
                         | [] => all_paths_info
                         | _ :: _ =>
                             dict_set all_paths_info destination_name
                                      (run_query destination_name)
                         end) acc destination_names →
                 e.2 = run_query e.1 ∧ e.2 ≠ []) as Hfold.
  { induction destination_names as [|k ks IH]; intros acc Hacc; simpl; [done|].
    apply IH. destruct (run_query k) as [|pc rest] eqn:E; [done|].
    intros e [->|He]%dict_set_elem_of; [simpl; by rewrite E|by apply Hacc]. }
  intros Hin. apply (Hfold [] ltac:(by intros e ?%elem_of_nil) (d, pcs) Hin).
Qed.

Lemma find_all_paths_omits_empty (run_query : string → list Entry)
    (destination_names : list string) (d : string) :
  run_query d = [] →
  d ∉ (find_all_paths_to_destinations run_query destination_names).*1.
Proof.
  intros Hq [[d' pcs] [-> Hin]]%list_elem_of_fmap. simpl in *.
  apply find_all_paths_elem_of in Hin as [-> Hne]. done.
Qed.

Lemma example_node_cost_nonneg (s : string) : 0 ≤ example_node_cost s.
Proof. unfold example_node_cost. repeat case_bool_decide; lia. Qed.

Lemma example_edge_cost_nonneg (e : string * string) : 0 ≤ example_edge_cost e.
Proof. unfold example_edge_cost. lia. Qed.

Lemma example_path_consistent (names : list string) :
  consistent example_node_cost example_edge_cost (example_path names).
Proof.
  unfold example_path. simpl. split.
  - destruct names as [|s names]; simpl; [constructor|].
    apply Forall_fmap, Forall_forall. by intros.
  - generalize (map (λ s, mkNode s (example_node_cost s)) names). intros ns.
    generalize (tail ns). induction ns as [|a ns IH]; intros [|b t]; simpl;
      constructor; [done|apply IH].
Qed.

(** Scenario A of the specification: one destination, two candidates. *)
Example search_scenario_A :
  calculate_combined_paths_cost example_node_cost example_edge_cost
    example_path_str map_scenario_A
  = Some [([(example_path ["A"; "X"; "B"], 10)], 10);
          ([(example_path ["A"; "Y"; "B"], 12)], 12)].
Proof. by vm_compute. Qed.

(** * The claims *)

(** ** C1 *)

(** C1, as stated, fails: with destination [D2] holding only the
    placeholder string, the search returns no combination at all. *)
Lemma C1_placeholder_not_substituted :
  ¬ ∃ res,
      calculate_combined_paths_cost example_node_cost example_edge_cost
        example_path_str map_with_placeholder = Some res
      ∧ placeholder_coverage map_with_placeholder res.
Proof.
  intros (res & Hres & Hne & _).
  assert (calculate_combined_paths_cost example_node_cost example_edge_cost
            example_path_str map_with_placeholder = Some []) as E
    by (by vm_compute).
  rewrite E in Hres. by injection Hres as <-.
Qed.

(** C1, amended: when some destination of the map has an empty candidate
    list or only placeholder strings, the search still completes, and
    returns the empty result list: strings are skipped, never put into a
    combination. *)
Theorem C1_search_without_real_path_returns_nothing
    (get_node_cost : string → Z) (get_edge_cost : string * string → Z)
    (path_str : Path → string) (all_paths_info : PathsInfo) (d : string) :
  dead_destination all_paths_info ∅ d →
  calculate_combined_paths_cost get_node_cost get_edge_cost path_str
    all_paths_info = Some [].
Proof.
  intros Hdead. unfold calculate_combined_paths_cost.
  destruct (search_dead_destination get_node_cost get_edge_cost path_str
              (S (length all_paths_info)) all_paths_info [] 0 ∅ ∅)
    as (res & memo' & -> & -> & _); [lia|by exists d|by intros ???|done].
Qed.

Lemma C1_search_without_real_path_witness :
  dead_destination map_with_placeholder ∅ "D2"
  ∧ calculate_combined_paths_cost example_node_cost example_edge_cost
      example_path_str map_with_placeholder = Some [].
Proof.
  assert (dead_destination map_with_placeholder ∅ "D2") as Hdead.
  { split; [set_solver|]. split.
    - exists [placeholder]. unfold map_with_placeholder. set_solver.
    - intros pcs Hin. unfold map_with_placeholder in Hin.
      apply elem_of_cons in Hin as [Hin|Hin]; [done|].
      apply list_elem_of_singleton in Hin. injection Hin as ->.
      by repeat constructor. }
  split; [exact Hdead|].
  exact (C1_search_without_real_path_returns_nothing
           example_node_cost example_edge_cost example_path_str
           map_with_placeholder "D2" Hdead).
Defined.

(** ** C2 *)

(** C2 fails on the code: for the single path [S -> X -> D1] the evaluator
    returns the set of all visited nodes, [{X, D1}], although no node occurs
    in two paths.  (The cost component is right.) *)
Theorem C2_evaluator_returns_visited_nodes :
  F1013.calculate_total_path_cost example_node_cost example_edge_cost
    [example_path ["S"; "X"; "D1"]] [3]
  = (3, {["X"; "D1"]})
  ∧ ¬ shared [F1013.node_names (example_path ["S"; "X"; "D1"])] "X".
Proof.
  split.
  - rewrite total_cost_single. apply pair_equal_spec. split; [done|].
    simpl. set_solver.
  - intros (i & j & X & Y & Hij & Hi & Hj & _).
    apply lookup_lt_Some in Hi, Hj. simpl in *. lia.
Qed.

(** ** C3 *)

(** C3, as stated, fails in the "only if" direction: [S -> D1] and
    [S -> X -> D1 -> D2] share the node [D1], which costs 0, and the true
    cost equals the sum of the raw costs. *)
Lemma C3_equality_despite_overlap :
  (∀ x, 0 ≤ example_node_cost x) ∧ (∀ e, 0 ≤ example_edge_cost e)
  ∧ ¬ ((F1013.calculate_total_path_cost example_node_cost example_edge_cost
          paths_sharing_free_node [1; 4]).1 ≤ sum [1; 4]
       ∧ ((F1013.calculate_total_path_cost example_node_cost example_edge_cost
             paths_sharing_free_node [1; 4]).1 = sum [1; 4]
          ↔ no_overlap paths_sharing_free_node)).
Proof.
  split; [apply example_node_cost_nonneg|].
  split; [apply example_edge_cost_nonneg|].
  intros [_ [Hno _]].
  destruct Hno as [Hn _]; [by vm_compute|].
  apply (Hn "D1").
  exists 0%nat, 1%nat, (F1013.node_names (example_path ["S"; "D1"])),
    (F1013.node_names (example_path ["S"; "X"; "D1"; "D2"])).
  repeat split; [done|simpl; set_solver..].
Qed.

(** C3, amended: with non-negative node and edge costs the true cost is at
    most the sum of the raw costs; the two are equal if and only if every
    node and every edge shared between two of the paths costs 0, and so in
    particular when nothing is shared. *)
Theorem C3_total_cost_at_most_raw_sum
    (get_node_cost : string → Z) (get_edge_cost : string * string → Z)
    (paths : list PathItem) (sub_costs : list Z) :
  (∀ x, 0 ≤ get_node_cost x) →
  (∀ e, 0 ≤ get_edge_cost e) →
  (F1013.calculate_total_path_cost get_node_cost get_edge_cost paths sub_costs).1
    ≤ sum sub_costs
  ∧ ((F1013.calculate_total_path_cost get_node_cost get_edge_cost paths sub_costs).1
       = sum sub_costs
     ↔ overlap_is_free get_node_cost get_edge_cost paths)
  ∧ (no_overlap paths →
     (F1013.calculate_total_path_cost get_node_cost get_edge_cost paths sub_costs).1
       = sum sub_costs).
Proof.
  intros Hn He.
  destruct (total_cost_le_and_eq_iff get_node_cost get_edge_cost paths sub_costs
              Hn He) as [Hle Hiff].
  split; [done|]. split; [done|].
  intros Hno. by apply Hiff, no_overlap_is_free.
Qed.

Lemma C3_total_cost_at_most_raw_sum_witness :
  (∀ x, 0 ≤ example_node_cost x) ∧ (∀ e, 0 ≤ example_edge_cost e)
  ∧ (F1013.calculate_total_path_cost example_node_cost example_edge_cost
     paths_sharing_M [7; 7]).1 ≤ sum [7; 7]
  ∧ ((F1013.calculate_total_path_cost example_node_cost example_edge_cost
        paths_sharing_M [7; 7]).1 = sum [7; 7]
     ↔ overlap_is_free example_node_cost example_edge_cost paths_sharing_M)
  ∧ (no_overlap paths_sharing_M →
     (F1013.calculate_total_path_cost example_node_cost example_edge_cost
        paths_sharing_M [7; 7]).1 = sum [7; 7]).
Proof.
  split; [exact example_node_cost_nonneg|].
  split; [exact example_edge_cost_nonneg|].
  exact (C3_total_cost_at_most_raw_sum example_node_cost example_edge_cost
           paths_sharing_M [7; 7]
           example_node_cost_nonneg example_edge_cost_nonneg).
Defined.

(** ** C4 *)

(** C4: on two paths (that carry the database's costs) the
    first-occurrence evaluator of [1013.py] and the set-intersection
    evaluator of [userStory4.py] return the same true cost; on some input
    of three paths they differ. *)
Theorem C4_evaluators_agree_on_two_paths_only :
  (∀ (get_node_cost : string → Z) (get_edge_cost : string * string → Z)
     (p1 p2 : PathItem) (sub_costs : list Z),
     consistent get_node_cost get_edge_cost p1 →
     consistent get_node_cost get_edge_cost p2 →
     (F1013.calculate_total_path_cost get_node_cost get_edge_cost
        [p1; p2] sub_costs).1
     = (UserStory4.calculate_total_path_cost [p1; p2] sub_costs).1)
  ∧ (∃ (get_node_cost : string → Z) (get_edge_cost : string * string → Z)
       (paths : list PathItem) (sub_costs : list Z),
       (3 ≤ length paths)%nat
       ∧ length sub_costs = length paths
       ∧ Forall (consistent get_node_cost get_edge_cost) paths
       ∧ (F1013.calculate_total_path_cost get_node_cost get_edge_cost
            paths sub_costs).1
         ≠ (UserStory4.calculate_total_path_cost paths sub_costs).1).
Proof.
  split.
  - intros. by apply evaluators_agree_on_pairs.
  - exists example_node_cost, example_edge_cost, three_paths, [5; 5; 3].
    split; [simpl; lia|]. split; [done|]. split.
    + repeat constructor; apply example_path_consistent.
    + by vm_compute.
Qed.

Lemma C4_evaluators_agree_witness :
  consistent example_node_cost example_edge_cost (example_path ["S"; "M"; "D1"])
  ∧ consistent example_node_cost example_edge_cost (example_path ["S"; "M"; "D2"])
  ∧ (F1013.calculate_total_path_cost example_node_cost example_edge_cost
       [example_path ["S"; "M"; "D1"]; example_path ["S"; "M"; "D2"]] [5; 5]).1
    = (UserStory4.calculate_total_path_cost
         [example_path ["S"; "M"; "D1"]; example_path ["S"; "M"; "D2"]] [5; 5]).1.
Proof.
  split; [apply example_path_consistent|].
  split; [apply example_path_consistent|].
  exact (proj1 C4_evaluators_agree_on_two_paths_only
           example_node_cost example_edge_cost
           (example_path ["S"; "M"; "D1"]) (example_path ["S"; "M"; "D2"]) [5; 5]
           (example_path_consistent ["S"; "M"; "D1"])
           (example_path_consistent ["S"; "M"; "D2"])).
Defined.

(** ** C5 *)

(** C5: the top-level search returns a list that is ascending in the true
    cost (the cost stored with each combination is the evaluator's cost of
    its paths) and has at most 5 entries; and every call of the recursion,
    started on a memo whose stored lists are ascending with at most 5
    entries (the empty memo is, and every call leaves it so), returns such
    a list. *)
Theorem C5_results_ranked_and_bounded
    (get_node_cost : string → Z) (get_edge_cost : string * string → Z)
    (path_str : Path → string) (all_paths_info : PathsInfo) :
  (∃ res,
     calculate_combined_paths_cost get_node_cost get_edge_cost path_str
       all_paths_info = Some res
     ∧ ascending res ∧ (length res ≤ 5)%nat
     ∧ priced get_node_cost get_edge_cost res)
  ∧ (∀ (k : nat) (current_path : Combination) (current_cost : Z)
       (visited : gset string) (memo : Memo),
       map_Forall (λ _, ranked) memo →
       ∃ res memo',
         calculate_combined_paths_cost_rec get_node_cost get_edge_cost path_str
           (S (length all_paths_info) + k) all_paths_info current_path
           current_cost visited memo = Some (res, memo')
         ∧ ascending res ∧ (length res ≤ 5)%nat
         ∧ map_Forall (λ _, ranked) memo').
Proof.
  split.
  - unfold calculate_combined_paths_cost.
    destruct (search_ranked get_node_cost get_edge_cost path_str
                (S (length all_paths_info)) all_paths_info [] 0 ∅ ∅)
      as (res & memo1 & E1 & [Hasc Hlen] & _); [lia|by intros ???|].
    destruct (search_priced get_node_cost get_edge_cost path_str
                (S (length all_paths_info)) all_paths_info [] 0 ∅ ∅)
      as (res' & memo2 & E2 & Hpriced & _); [lia|done|by intros ???|].
    rewrite E1 in E2. injection E2 as <- <-.
    exists res. by rewrite E1.
  - intros k current_path current_cost visited memo Hmemo.
    destruct (search_ranked get_node_cost get_edge_cost path_str
                (S (length all_paths_info) + k) all_paths_info current_path
                current_cost visited memo)
      as (res & memo1 & E1 & [Hasc Hlen] & Hmemo1); [lia|done|].
    by exists res, memo1.
Qed.

Lemma C5_results_ranked_witness :
  map_Forall (λ _, ranked) (∅ : Memo)
  ∧ ∃ res memo',
      calculate_combined_paths_cost_rec example_node_cost example_edge_cost
        example_path_str (S (length map_scenario_A) + 0) map_scenario_A
        [] 0 ∅ ∅ = Some (res, memo')
      ∧ ascending res ∧ (length res ≤ 5)%nat
      ∧ map_Forall (λ _, ranked) memo'.
Proof.
  split; [apply map_Forall_empty|].
  exact (proj2 (C5_results_ranked_and_bounded example_node_cost
                  example_edge_cost example_path_str map_scenario_A)
               0%nat [] 0 ∅ ∅ (map_Forall_empty _)).
Defined.

(** ** C6 *)


(** ** C7 *)

(** C7: on the empty map, from the initial state, the search returns
    exactly one result, the empty combination with cost 0 (and no error);
    the recursive function does so for any fuel but 0, whatever the memo,
    which it leaves as it is. *)
Theorem C7_empty_destination_set
    (get_node_cost : string → Z) (get_edge_cost : string * string → Z)
    (path_str : Path → string) :
  calculate_combined_paths_cost get_node_cost get_edge_cost path_str []
  = Some [([], 0)]
  ∧ ∀ (fuel : nat) (memo : Memo),
      calculate_combined_paths_cost_rec get_node_cost get_edge_cost path_str
        (S fuel) [] [] 0 ∅ memo = Some ([([], 0)], memo).
Proof.
  split.
  - unfold calculate_combined_paths_cost. simpl. reflexivity.
  - intros fuel memo. simpl. reflexivity.
Qed.

(** ** C8 *)

(** C8: the true cost of a single path is its raw cost, in both
    evaluators. *)
Theorem C8_single_path_true_cost
    (get_node_cost : string → Z) (get_edge_cost : string * string → Z)
    (p : PathItem) (c : Z) :
  (F1013.calculate_total_path_cost get_node_cost get_edge_cost [p] [c]).1 = c
  ∧ (UserStory4.calculate_total_path_cost [p] [c]).1 = c.
Proof. by rewrite total_cost_single, userStory4_total_cost_single. Qed.

(** ** C9 *)

(** C9: two paths whose node sets (source excluded) meet in exactly one
    node, of cost [c], and whose edge sets are disjoint, have true cost
    [c1 + c2 - c]; so has the evaluator of [userStory4.py] on paths that
    carry the database's costs. *)
Theorem C9_one_shared_node
    (get_node_cost : string → Z) (get_edge_cost : string * string → Z)
    (p1 p2 : PathItem) (c1 c2 : Z) (m : string) (c : Z) :
  F1013.node_names p1 ∩ F1013.node_names p2 = {[m]} →
  F1013.edge_names p1 ∩ F1013.edge_names p2 = ∅ →
  get_node_cost m = c →
  (F1013.calculate_total_path_cost get_node_cost get_edge_cost
     [p1; p2] [c1; c2]).1 = c1 + c2 - c
  ∧ (consistent get_node_cost get_edge_cost p1 →
     consistent get_node_cost get_edge_cost p2 →
     (UserStory4.calculate_total_path_cost [p1; p2] [c1; c2]).1 = c1 + c2 - c).
Proof.
  intros Hn He Hc.
  assert ((F1013.calculate_total_path_cost get_node_cost get_edge_cost
             [p1; p2] [c1; c2]).1 = c1 + c2 - c) as Heq.
  { rewrite total_cost_pair, Hn, He, set_cost_singleton, set_cost_empty.
    rewrite !sum_cons, sum_nil. lia. }
  split; [done|]. intros H1 H2.
  by rewrite <- (evaluators_agree_on_pairs get_node_cost get_edge_cost).
Qed.

Lemma C9_one_shared_node_witness :
  F1013.node_names (example_path ["S"; "A"; "M"; "D1"])
    ∩ F1013.node_names (example_path ["S"; "B"; "M"; "D2"]) = {["M"]}
  ∧ F1013.edge_names (example_path ["S"; "A"; "M"; "D1"])
      ∩ F1013.edge_names (example_path ["S"; "B"; "M"; "D2"]) = ∅
  ∧ example_node_cost "M" = 3
  ∧ (F1013.calculate_total_path_cost example_node_cost example_edge_cost
       [example_path ["S"; "A"; "M"; "D1"]; example_path ["S"; "B"; "M"; "D2"]]
       [7; 7]).1 = 7 + 7 - 3.
Proof.
  assert (F1013.node_names (example_path ["S"; "A"; "M"; "D1"])
            ∩ F1013.node_names (example_path ["S"; "B"; "M"; "D2"]) = {["M"]})
    as Hn by (by vm_compute).
  assert (F1013.edge_names (example_path ["S"; "A"; "M"; "D1"])
            ∩ F1013.edge_names (example_path ["S"; "B"; "M"; "D2"]) = ∅)
    as He by (by vm_compute).
  split; [exact Hn|]. split; [exact He|]. split; [reflexivity|].
  exact (proj1 (C9_one_shared_node example_node_cost example_edge_cost
                  (example_path ["S"; "A"; "M"; "D1"])
                  (example_path ["S"; "B"; "M"; "D2"]) 7 7 "M" 3
                  Hn He eq_refl)).
Defined.

(** ** C10 *)

(** C10: the search terminates on every map, whatever its candidate lists
    hold: a recursion depth of one more than the number of destinations is
    enough, further fuel does not change the result, and every recursive
    call is on a map with strictly fewer destinations. *)
Theorem C10_search_terminates
    (get_node_cost : string → Z) (get_edge_cost : string * string → Z)
    (path_str : Path → string) (all_paths_info : PathsInfo)
    (current_path : Combination) (current_cost : Z) (visited : gset string)
    (memo : Memo) :
  (∃ r, ∀ k,
     calculate_combined_paths_cost_rec get_node_cost get_edge_cost path_str
       (S (length all_paths_info) + k) all_paths_info current_path
       current_cost visited memo = Some r)
  ∧ (∀ d, d ∈ all_paths_info →
       (length (remaining_destinations all_paths_info (visited ∪ {[d.1]}))
        < length all_paths_info)%nat).
Proof.
  split.
  - apply search_terminates.
  - intros d Hd. by apply remaining_destinations_shrink.
Qed.

(** * Further properties *)

(** ** Sums over the elements of a set *)

Lemma sum_map_ext_in {B : Type} (f g : B → Z) (l : list B) :
  (∀ x, x ∈ l → f x = g x) → sum (map f l) = sum (map g l).
Proof.
  induction l as [|x l IH]; intros Hfg; simpl; [done|].
  rewrite !sum_cons, IH, (Hfg x); [done|left|].
  intros y Hy. apply Hfg. by right.
Qed.

Lemma sum_map_le {B : Type} (f g : B → Z) (l : list B) :
  (∀ x, x ∈ l → f x ≤ g x) → sum (map f l) ≤ sum (map g l).
Proof.
  induction l as [|x l IH]; intros Hfg; simpl; [done|].
  rewrite !sum_cons.
  assert (f x ≤ g x) by (apply Hfg; left).
  assert (sum (map f l) ≤ sum (map g l)) by (apply IH; intros y Hy; apply Hfg; by right).
  lia.
Qed.

Lemma sum_map_add {B : Type} (f g : B → Z) (l : list B) :
  sum (map (λ x, f x + g x) l) = sum (map f l) + sum (map g l).
Proof.
  induction l as [|x l IH]; simpl; [done|]. rewrite !sum_cons, IH. lia.
Qed.

Lemma sum_map_filter {B : Type} (P : B → Prop) {DP : ∀ x, Decision (P x)}
    (f : B → Z) (l : list B) :
  sum (map f (filter P l)) = sum (map (λ x, if decide (P x) then f x else 0) l).
Proof.
  induction l as [|x l IH]; simpl; [done|].
  rewrite filter_cons, sum_cons. destruct (decide (P x)); simpl.
  - rewrite sum_cons, IH. done.
  - rewrite IH. lia.
Qed.

(** A sum over a set, written over the elements of a larger set. *)
Lemma sum_elements_within {A : Type} {EqA : EqDecision A} {CntA : Countable A}
    (f : A → Z) (X U : gset A) :
  X ⊆ U →
  sum (map f (elements X))
  = sum (map (λ x, if decide (x ∈ X) then f x else 0) (elements U)).
Proof.
  intros HXU. rewrite <- sum_map_filter.
  apply sum_Permutation, fmap_Permutation, NoDup_Permutation.
  - apply NoDup_elements.
  - apply NoDup_filter, NoDup_elements.
  - intros x. rewrite list_elem_of_filter, !elem_of_elements. set_solver.
Qed.

(** ** How often the evaluator charges an element *)

Lemma occurrences_cons {A : Type} {EqA : EqDecision A} {CntA : Countable A}
    (x : A) (X : gset A) (sets : list (gset A)) :
  occurrences x (X :: sets)
  = ((if decide (x ∈ X) then 1 else 0) + occurrences x sets)%nat.
Proof. unfold occurrences. rewrite filter_cons. by destruct (decide (x ∈ X)). Qed.

Lemma occurrences_zero {A : Type} {EqA : EqDecision A} {CntA : Countable A}
    (x : A) (sets : list (gset A)) :
  x ∉ ⋃ sets → occurrences x sets = 0%nat.
Proof.
  induction sets as [|X sets IH]; [done|]. simpl. intros Hx.
  rewrite occurrences_cons, IH by set_solver.
  destruct (decide (x ∈ X)); [set_solver|done].
Qed.

Lemma occurrences_Permutation {A : Type} {EqA : EqDecision A}
    {CntA : Countable A} (x : A) (sets sets' : list (gset A)) :
  sets ≡ₚ sets' → occurrences x sets = occurrences x sets'.
Proof. intros Hp. unfold occurrences. by rewrite Hp. Qed.

Lemma union_list_Permutation {A : Type} {EqA : EqDecision A}
    {CntA : Countable A} (sets sets' : list (gset A)) :
  sets ≡ₚ sets' → ⋃ sets = ⋃ sets'.
Proof.
  induction 1 as [|X l1 l2 _ IH|X Y l|l1 l2 l3 _ IH1 _ IH2]; simpl;
    [done|by rewrite IH|set_solver|congruence].
Qed.

Section MultiplicityFacts.
Context {A : Type} {EqA : EqDecision A} {CntA : Countable A} (cost_of : A → Z).

(** Started from the visited set [V], the loop charges an element once for
    each of its occurrences, less one if it was not in [V]. *)
Lemma overlap_total_multiplicity (V : gset A) (sets : list (gset A)) :
  overlap_total cost_of V sets
  = sum (map (λ x, cost_of x * (Z.of_nat (occurrences x sets)
                                - if decide (x ∈ V) then 0 else 1))
             (elements (⋃ sets))).
Proof.
  revert V. induction sets as [|X sets IH]; intros V; simpl.
  - by rewrite elements_empty.
  - rewrite IH. unfold set_cost.
    rewrite (sum_elements_within cost_of (X ∩ V) (X ∪ ⋃ sets)) by set_solver.
    rewrite (sum_elements_within _ (⋃ sets) (X ∪ ⋃ sets)) by set_solver.
    rewrite <- sum_map_add. apply sum_map_ext_in.
    intros x Hx%elem_of_elements. rewrite occurrences_cons.
    destruct (decide (x ∈ ⋃ sets)) as [Hin|Hout].
    + repeat case_decide; try set_solver; lia.
    + rewrite (occurrences_zero x sets Hout).
      repeat case_decide; try set_solver; lia.
Qed.

Lemma overlap_total_surplus (sets : list (gset A)) :
  overlap_total cost_of ∅ sets = surplus_cost cost_of sets.
Proof.
  rewrite overlap_total_multiplicity. unfold surplus_cost.
  apply sum_map_ext_in. intros x _. case_decide; [set_solver|done].
Qed.

Lemma overlap_total_Permutation (sets sets' : list (gset A)) :
  sets ≡ₚ sets' → overlap_total cost_of ∅ sets = overlap_total cost_of ∅ sets'.
Proof.
  intros Hp. rewrite !overlap_total_surplus. unfold surplus_cost.
  rewrite (union_list_Permutation _ _ Hp).
  apply sum_map_ext_in. intros x _. by rewrite (occurrences_Permutation x _ _ Hp).
Qed.
End MultiplicityFacts.

(** ** The evaluator of [1013.py]: multiplicity, order, strings *)
Section EvaluatorMore.
Variable get_node_cost : string → Z.
Variable get_edge_cost : string * string → Z.

(** A node or an edge that occurs in [k] of the paths is subtracted [k - 1]
    times: once for every path after the first that holds it. *)
Theorem total_cost_multiplicity (paths : list PathItem) (sub_costs : list Z) :
  (F1013.calculate_total_path_cost get_node_cost get_edge_cost paths sub_costs).1
  = sum sub_costs
    - surplus_cost get_node_cost (map F1013.node_names paths)
    - surplus_cost get_edge_cost (map F1013.edge_names paths).
Proof.
  rewrite calculate_total_path_cost_spec. simpl.
  by rewrite !overlap_total_surplus.
Qed.

Lemma total_cost_of_Permutation (c c' : Combination) :
  c ≡ₚ c' →
  total_cost_of get_node_cost get_edge_cost c
  = total_cost_of get_node_cost get_edge_cost c'.
Proof.
  intros Hp. unfold total_cost_of.
  rewrite !calculate_total_path_cost_spec. simpl.
  rewrite (sum_Permutation (map snd c) (map snd c')) by (by apply fmap_Permutation).
  rewrite (overlap_total_Permutation get_node_cost
             (map F1013.node_names (map fst c)) (map F1013.node_names (map fst c')))
    by (by do 2 apply fmap_Permutation).
  rewrite (overlap_total_Permutation get_edge_cost
             (map F1013.edge_names (map fst c)) (map F1013.edge_names (map fst c')))
    by (by do 2 apply fmap_Permutation).
  done.
Qed.

(** The true cost of a combination does not depend on the order in which
    its paths were chosen. *)
Theorem total_cost_order_independent (c c' : Combination) :
  c ≡ₚ c' →
  total_cost_of get_node_cost get_edge_cost c
  = total_cost_of get_node_cost get_edge_cost c'.
Proof. apply total_cost_of_Permutation. Qed.

(** A string among the paths adds nothing but its own sub-cost: it shares
    no node and no edge with any path, wherever it stands. *)
Theorem total_cost_string_entry (paths1 paths2 : list PathItem) (s : string)
    (costs1 costs2 : list Z) (z : Z) :
  F1013.calculate_total_path_cost get_node_cost get_edge_cost
    (paths1 ++ PathStr s :: paths2) (costs1 ++ z :: costs2)
  = ((F1013.calculate_total_path_cost get_node_cost get_edge_cost
        (paths1 ++ paths2) (costs1 ++ costs2)).1 + z,
     (F1013.calculate_total_path_cost get_node_cost get_edge_cost
        (paths1 ++ paths2) (costs1 ++ costs2)).2).
Proof.
  rewrite !calculate_total_path_cost_spec. simpl.
  rewrite !map_app. simpl.
  rewrite (overlap_total_Permutation get_node_cost
             (map F1013.node_names paths1 ++ ∅ :: map F1013.node_names paths2)
             (∅ :: map F1013.node_names paths1 ++ map F1013.node_names paths2))
    by (symmetry; apply Permutation_middle).
  rewrite (overlap_total_Permutation get_edge_cost
             (map F1013.edge_names paths1 ++ ∅ :: map F1013.edge_names paths2)
             (∅ :: map F1013.edge_names paths1 ++ map F1013.edge_names paths2))
    by (symmetry; apply Permutation_middle).
  simpl. rewrite !intersection_empty_r_L, !set_cost_empty, !union_empty_l_L.
  rewrite (sum_Permutation (costs1 ++ z :: costs2) (z :: costs1 ++ costs2))
    by (symmetry; apply Permutation_middle).
  rewrite sum_cons. apply pair_equal_spec. split; [lia|].
  rewrite (union_list_Permutation
             (map F1013.node_names paths1 ++ ∅ :: map F1013.node_names paths2)
             (∅ :: map F1013.node_names paths1 ++ map F1013.node_names paths2))
    by (symmetry; apply Permutation_middle).
  simpl. by rewrite union_empty_l_L.
Qed.
End EvaluatorMore.

Lemma total_cost_order_independent_witness :
  [(example_path ["S"; "M"; "D1"], 5); (example_path ["S"; "M"; "D2"], 5)]
    ≡ₚ [(example_path ["S"; "M"; "D2"], 5); (example_path ["S"; "M"; "D1"], 5)]
  ∧ total_cost_of example_node_cost example_edge_cost
      [(example_path ["S"; "M"; "D1"], 5); (example_path ["S"; "M"; "D2"], 5)]
    = total_cost_of example_node_cost example_edge_cost
        [(example_path ["S"; "M"; "D2"], 5); (example_path ["S"; "M"; "D1"], 5)].
Proof.
  split; [apply perm_swap|].
  exact (total_cost_order_independent example_node_cost example_edge_cost
           _ _ (perm_swap _ _ _)).
Defined.

(** ** The evaluator of [userStory4.py]: strings *)

Lemma foldl_intersection_subseteq_l {A : Type} {EqA : EqDecision A}
    {CntA : Countable A} (rest : list (gset A)) (s0 : gset A) :
  foldl (∩) s0 rest ⊆ s0.
Proof.
  revert s0. induction rest as [|Y rest IH]; intros s0; simpl; [done|].
  etrans; [apply IH|set_solver].
Qed.

Lemma foldl_intersection_subseteq {A : Type} {EqA : EqDecision A}
    {CntA : Countable A} (rest : list (gset A)) (s0 X : gset A) :
  X ∈ rest → foldl (∩) s0 rest ⊆ X.
Proof.
  revert s0. induction rest as [|Y rest IH]; intros s0 HX.
  - by apply elem_of_nil in HX.
  - apply elem_of_cons in HX as [->|HX]; simpl.
    + etrans; [apply foldl_intersection_subseteq_l|set_solver].
    + by apply IH.
Qed.

Lemma intersection_all_with_empty {A : Type} {EqA : EqDecision A}
    {CntA : Countable A} (sets : list (gset A)) :
  ∅ ∈ sets → UserStory4.intersection_all sets = ∅.
Proof.
  intros Hin. destruct sets as [|s0 [|s1 rest]]; [done..|].
  unfold UserStory4.intersection_all.
  apply elem_of_cons in Hin as [<-|Hin].
  - pose proof (foldl_intersection_subseteq_l (s1 :: rest) ∅). set_solver.
  - pose proof (foldl_intersection_subseteq (s1 :: rest) s0 ∅ Hin). set_solver.
Qed.

Lemma userStory4_total_cost_with_string (paths1 paths2 : list PathItem) (s : string)
    (sub_costs : list Z) :
  UserStory4.calculate_total_path_cost (paths1 ++ PathStr s :: paths2) sub_costs
  = (sum sub_costs, ∅).
Proof.
  unfold UserStory4.calculate_total_path_cost.
  rewrite !intersection_all_with_empty.
  - rewrite !elements_empty. simpl. rewrite sum_nil, set_map_empty.
    apply pair_equal_spec. split; [lia|done].
  - rewrite map_app. simpl. apply elem_of_app. right. left.
  - rewrite map_app. simpl. apply elem_of_app. right. left.
Qed.

(** In the evaluator of [userStory4.py] a single string among the paths
    (the "no available path" filler) empties the intersection: nothing is
    subtracted and no node is reported, whatever the other paths share. *)
Theorem userStory4_string_entry (paths1 paths2 : list PathItem) (s : string)
    (sub_costs : list Z) :
  UserStory4.calculate_total_path_cost (paths1 ++ PathStr s :: paths2) sub_costs
  = (sum sub_costs, ∅).
Proof. apply userStory4_total_cost_with_string. Qed.

(** ** The two evaluators on any number of paths *)

Lemma occurrences_pos {A : Type} {EqA : EqDecision A} {CntA : Countable A}
    (x : A) (sets : list (gset A)) :
  x ∈ ⋃ sets → (1 ≤ occurrences x sets)%nat.
Proof.
  induction sets as [|X sets IH]; simpl; [set_solver|].
  rewrite occurrences_cons. destruct (decide (x ∈ X)); [lia|].
  intros Hx. assert (x ∈ ⋃ sets) as Hin by set_solver. apply IH in Hin. lia.
Qed.

Lemma occurrences_all {A : Type} {EqA : EqDecision A} {CntA : Countable A}
    (x : A) (sets : list (gset A)) :
  (∀ X, X ∈ sets → x ∈ X) → occurrences x sets = length sets.
Proof.
  induction sets as [|X sets IH]; intros Hall; [done|].
  rewrite occurrences_cons, IH by (intros Y HY; apply Hall; by right).
  destruct (decide (x ∈ X)) as [|Hn]; [done|]. exfalso. apply Hn, Hall. left.
Qed.

Lemma intersection_all_elem_of {A : Type} {EqA : EqDecision A}
    {CntA : Countable A} (x : A) (sets : list (gset A)) :
  x ∈ UserStory4.intersection_all sets →
  (2 ≤ length sets)%nat ∧ ∀ X, X ∈ sets → x ∈ X.
Proof.
  destruct sets as [|s0 [|s1 rest]]; [set_solver..|].
  unfold UserStory4.intersection_all. intros Hx. split; [simpl; lia|].
  intros X [->|HX]%elem_of_cons.
  - by apply (foldl_intersection_subseteq_l (s1 :: rest) s0).
  - by apply (foldl_intersection_subseteq (s1 :: rest) s0 X).
Qed.

Section Tagged.
Context {K : Type} {EqK : EqDecision K} {CntK : Countable K} (g : K → Z).

Lemma set_map_tag_intersection (X Y : gset K) :
  set_map (λ k, (k, g k)) (X ∩ Y)
  =@{gset (K * Z)} set_map (λ k, (k, g k)) X ∩ set_map (λ k, (k, g k)) Y.
Proof.
  apply set_eq. intros [k z].
  rewrite elem_of_intersection, !elem_of_map. split.
  - intros (k' & [= -> ->] & [??]%elem_of_intersection). split; by exists k'.
  - intros [(k1 & [= -> ->] & H1) (k2 & [= -> _] & H2)]. exists k2. set_solver.
Qed.

Lemma intersection_all_tagged (sets : list (gset K)) :
  UserStory4.intersection_all (map (set_map (λ k, (k, g k))) sets)
  =@{gset (K * Z)} set_map (λ k, (k, g k)) (UserStory4.intersection_all sets).
Proof.
  destruct sets as [|s0 [|s1 rest]]; simpl; [by rewrite set_map_empty..|].
  rewrite <- set_map_tag_intersection.
  generalize (s0 ∩ s1). induction rest as [|Y rest IH]; intros X; simpl; [done|].
  by rewrite <- set_map_tag_intersection, IH.
Qed.

Lemma set_cost_set_map_tag (X : gset K) :
  set_cost snd (set_map (λ k, (k, g k)) X : gset (K * Z)) = set_cost g X.
Proof.
  pose proof (set_cost_tagged g X X) as Ht.
  by rewrite !intersection_idemp_L in Ht.
Qed.

(** What the intersection of all sets costs is at most what the
    first-occurrence pass charges. *)
Lemma intersection_cost_le_surplus (sets : list (gset K)) :
  (∀ k, 0 ≤ g k) →
  set_cost g (UserStory4.intersection_all sets) ≤ surplus_cost g sets.
Proof.
  intros Hg. unfold set_cost, surplus_cost.
  rewrite (sum_elements_within g (UserStory4.intersection_all sets) (⋃ sets)).
  - apply sum_map_le. intros x Hx%elem_of_elements.
    pose proof (occurrences_pos x sets Hx). pose proof (Hg x).
    case_decide as Hin; [|nia].
    apply intersection_all_elem_of in Hin as [Hlen Hall].
    rewrite (occurrences_all x sets Hall). nia.
  - intros x [Hlen Hall]%intersection_all_elem_of.
    destruct sets as [|X sets]; [simpl in Hlen; lia|].
    simpl. apply elem_of_union_l, Hall. left.
Qed.
End Tagged.

(** On paths that carry the database's costs, with non-negative costs, the
    evaluator of [1013.py] never returns more than the evaluator of
    [userStory4.py], however many paths there are. *)
Theorem evaluators_ordered
    (get_node_cost : string → Z) (get_edge_cost : string * string → Z)
    (paths : list PathItem) (sub_costs : list Z) :
  (∀ x, 0 ≤ get_node_cost x) →
  (∀ e, 0 ≤ get_edge_cost e) →
  Forall (consistent get_node_cost get_edge_cost) paths →
  (F1013.calculate_total_path_cost get_node_cost get_edge_cost paths sub_costs).1
  ≤ (UserStory4.calculate_total_path_cost paths sub_costs).1.
Proof.
  intros Hn He Hc. rewrite calculate_total_path_cost_spec. simpl.
  rewrite !overlap_total_surplus.
  unfold UserStory4.calculate_total_path_cost. simpl.
  assert (map UserStory4.node_pairs paths
          = map (set_map (λ s, (s, get_node_cost s))) (map F1013.node_names paths))
    as ->.
  { rewrite <- list_fmap_compose. apply Forall_fmap_ext_1.
    eapply Forall_impl; [exact Hc|]. intros p Hp. simpl.
    by apply (node_pairs_consistent get_node_cost get_edge_cost). }
  assert (map UserStory4.rel_triples paths
          = map (set_map (λ e, (e, get_edge_cost e))) (map F1013.edge_names paths))
    as ->.
  { rewrite <- list_fmap_compose. apply Forall_fmap_ext_1.
    eapply Forall_impl; [exact Hc|]. intros p Hp. simpl.
    by apply (rel_triples_consistent get_node_cost get_edge_cost). }
  rewrite !intersection_all_tagged.
  pose proof (set_cost_set_map_tag get_node_cost
                (UserStory4.intersection_all (map F1013.node_names paths))) as E1.
  pose proof (set_cost_set_map_tag get_edge_cost
                (UserStory4.intersection_all (map F1013.edge_names paths))) as E2.
  pose proof (intersection_cost_le_surplus get_node_cost
                (map F1013.node_names paths) Hn) as L1.
  pose proof (intersection_cost_le_surplus get_edge_cost
                (map F1013.edge_names paths) He) as L2.
  unfold set_cost in E1, E2, L1, L2. rewrite E1, E2. lia.
Qed.

Lemma evaluators_ordered_witness :
  (∀ x, 0 ≤ example_node_cost x) ∧ (∀ e, 0 ≤ example_edge_cost e)
  ∧ Forall (consistent example_node_cost example_edge_cost) three_paths
  ∧ (F1013.calculate_total_path_cost example_node_cost example_edge_cost
       three_paths [5; 5; 3]).1
    ≤ (UserStory4.calculate_total_path_cost three_paths [5; 5; 3]).1.
Proof.
  assert (Forall (consistent example_node_cost example_edge_cost) three_paths)
    as Hc by (repeat constructor; apply example_path_consistent).
  split; [exact example_node_cost_nonneg|].
  split; [exact example_edge_cost_nonneg|].
  split; [exact Hc|].
  exact (evaluators_ordered example_node_cost example_edge_cost three_paths
           [5; 5; 3] example_node_cost_nonneg example_edge_cost_nonneg Hc).
Defined.

(** ** The search: what the combinations hold *)

Lemma add_results_length (combined subs : list Scored) :
  (length combined ≤ length (add_results combined subs))%nat
  ∧ (subs ≠ [] → 1 ≤ length (add_results combined subs))%nat.
Proof.
  unfold add_results. revert combined.
  induction subs as [|s subs IH]; intros combined; simpl; [by split|].
  assert (length combined ≤ length (add_result combined s)
          ∧ 1 ≤ length (add_result combined s))%nat as [H1 H2].
  { unfold add_result. destruct combined as [|c combined]; [simpl; lia|].
    destruct (path_already_exists _ _ _); rewrite ?length_app; simpl; lia. }
  destruct (IH (add_result combined s)) as [H3 _]. split; [lia|]. intros _. lia.
Qed.

(** A loop that keeps [I], keeps [J] once it holds, and establishes [J] at
    an element that is a hit, ends with both when some element is a hit. *)
Lemma for_each_reach {A St : Type} (I J : St → Prop) (hit : A → Prop)
    (body : St → A → option St) (l : list A) (st : St) :
  I st →
  (∀ st x, x ∈ l → I st →
     ∃ st', body st x = Some st' ∧ I st' ∧ (J st → J st') ∧ (hit x → J st')) →
  (∃ x, x ∈ l ∧ hit x) →
  ∃ st', for_each body l st = Some st' ∧ I st' ∧ J st'.
Proof.
  revert st. induction l as [|x l IH]; intros st Hst Hbody (y & Hy & Hhit).
  - by apply elem_of_nil in Hy.
  - simpl. destruct (Hbody st x) as (st1 & -> & HI1 & HJ1 & Hhit1); [left|done|].
    apply elem_of_cons in Hy as [->|Hy].
    + destruct (for_each_inv (λ s, I s ∧ J s) body l st1)
        as (st2 & E & HI2 & HJ2); [by split; auto| |by exists st2].
      intros s z Hz [HIs HJs].
      destruct (Hbody s z) as (s' & E' & HI' & HJ' & _); [by right|done|].
      exists s'. by auto.
    + apply IH; [done| |by exists y].
      intros s z Hz. apply Hbody. by right.
Qed.

Section SearchMore.
Variable get_node_cost : string → Z.
Variable get_edge_cost : string * string → Z.
Variable path_str : Path → string.

Local Abbreviation search_rec :=
  (calculate_combined_paths_cost_rec get_node_cost get_edge_cost path_str).
Local Abbreviation search :=
  (calculate_combined_paths_cost get_node_cost get_edge_cost path_str).

(** No combination of any result holds a string: the placeholders of a
    candidate list are never chosen. *)
Theorem search_results_hold_no_string (all_paths_info : PathsInfo) :
  ∃ res,
    search all_paths_info = Some res
    ∧ Forall (λ sc : Scored, Forall (λ pc : Entry, is_str pc.1 = false) sc.1) res.
Proof.
  unfold calculate_combined_paths_cost.
  destruct (search_real_paths get_node_cost get_edge_cost path_str
              (S (length all_paths_info)) all_paths_info [] 0 ∅ ∅)
    as (res & memo' & -> & Hres & _); [lia|constructor|by intros ???|].
  by exists res.
Qed.

(** When every destination left is unvisited and has a real path, every
    call returns at least one combination. *)
Lemma search_nonempty (fuel : nat) (all_paths_info : PathsInfo)
    (current_path : Combination) (current_cost : Z) (visited : gset string)
    (memo : Memo) :
  (length all_paths_info < fuel)%nat →
  (∀ d, d ∈ all_paths_info → (d.1 ∉ visited) ∧ has_real_path d) →
  map_Forall (λ _ r, r ≠ []) memo →
  ∃ res memo',
    search_rec fuel all_paths_info current_path current_cost visited memo
    = Some (res, memo')
    ∧ res ≠ [] ∧ map_Forall (λ _ r, r ≠ []) memo'.
Proof.
  revert all_paths_info current_path current_cost visited memo.
  induction fuel as [|fuel IH];
    intros all_paths_info current_path current_cost visited memo Hlen Hreal Hmemo;
    [lia|].
  simpl. unfold search_body.
  destruct all_paths_info as [|d0 rest] eqn:Em.
  { by eexists _, _. }
  rewrite <- Em in *.
  destruct (memo !! _) as [r|] eqn:Ememo.
  { exists r, memo. split; [done|]. split; [|done]. by apply (Hmemo _ _ Ememo). }
  destruct (for_each_reach
              (λ st : list Scored * Memo, map_Forall (λ _ r, r ≠ []) st.2)
              (λ st : list Scored * Memo, st.1 ≠ [])
              (λ _, True)
              (try_destination get_node_cost get_edge_cost
                 (calculate_combined_paths_cost_rec get_node_cost get_edge_cost
                    path_str fuel) all_paths_info current_path visited)
              all_paths_info ([], memo))
    as ([combined memo1] & -> & Hmemo1 & Hne); [done| | |].
  - intros st d Hd Hst. unfold try_destination.
    destruct (Hreal d Hd) as [Hvis (pc0 & Hpc0 & Hstr0)].
    rewrite bool_decide_eq_false_2 by done.
    destruct (for_each_reach
                (λ st : list Scored * Memo, map_Forall (λ _ r, r ≠ []) st.2)
                (λ st : list Scored * Memo, st.1 ≠ [])
                (λ pc : Entry, is_str pc.1 = false)
                (try_path get_node_cost get_edge_cost
                   (calculate_combined_paths_cost_rec get_node_cost get_edge_cost
                      path_str fuel) all_paths_info current_path visited d.1)
                d.2 st)
      as (st' & E & HI & HJ); [done| |by exists pc0|].
    + intros st1 pc Hpc Hst1. unfold try_path.
      destruct (is_str pc.1) eqn:Estr; [by exists st1|].
      destruct (IH (remaining_destinations all_paths_info (visited ∪ {[d.1]}))
                   (current_path ++ [pc])
                   (total_cost_of get_node_cost get_edge_cost (current_path ++ [pc]))
                   (visited ∪ {[d.1]}) st1.2)
        as (subs & memo2 & -> & Hsubs & Hmemo2).
      * pose proof (remaining_destinations_shrink all_paths_info d visited Hd). lia.
      * intros d' [Hd'vis Hd']%list_elem_of_filter. split; [done|].
        by apply Hreal.
      * done.
      * eexists. split; [done|]. simpl.
        destruct (add_results_length st1.1 subs) as [Hl1 Hl2].
        split; [done|]. split.
        -- intros Hst1ne Heq. rewrite Heq in Hl1.
           destruct st1.1; [done|simpl in Hl1; lia].
        -- intros _ Heq. rewrite Heq in Hl2. specialize (Hl2 Hsubs).
           simpl in Hl2. lia.
    + exists st'. by auto.
  - exists d0. rewrite Em. split; [left|done].
  - eexists _, _. split; [done|]. simpl in *.
    assert (take 5 (sort_by_cost combined) ≠ []) as Hres.
    { pose proof (Permutation_length (sort_by_cost_perm combined)) as Hl.
      destruct combined as [|c combined]; [done|].
      destruct (sort_by_cost (c :: combined)); [simpl in Hl; lia|done]. }
    split; [done|]. by apply map_Forall_insert_2.
Qed.

Lemma filter_visited_all (all_paths_info : PathsInfo) (visited : gset string) :
  remaining_destinations all_paths_info visited = [] →
  filter (λ kv : string * list Entry, kv.1 ∈ visited) all_paths_info = all_paths_info.
Proof.
  unfold remaining_destinations, PathsInfo in *.
  induction all_paths_info as [|e m IH]; [done|].
  rewrite !filter_cons. destruct (decide (e.1 ∉ visited)) as [|Hin]; [done|].
  intros Hnil. apply dec_stable in Hin.
  destruct (decide (e.1 ∈ visited)); [|done]. by rewrite IH.
Qed.

Lemma remaining_destinations_twice (all_paths_info : PathsInfo)
    (visited : gset string) (d : string) :
  remaining_destinations (remaining_destinations all_paths_info visited)
    (visited ∪ {[d]})
  = remaining_destinations all_paths_info (visited ∪ {[d]}).
Proof.
  unfold remaining_destinations, PathsInfo in *.
  induction all_paths_info as [|e m IH]; [done|].
  rewrite !filter_cons.
  destruct (decide (e.1 ∉ visited)) as [H1|H1];
    destruct (decide (e.1 ∉ visited ∪ {[d]})) as [H2|H2];
    rewrite ?filter_cons; try destruct (decide (e.1 ∉ visited ∪ {[d]}));
    try done; try (by rewrite IH); set_solver.
Qed.

(** With distinct keys, visiting [d] adds exactly the entry of [d] to the
    visited part of the map. *)
Lemma filter_visited_step (all_paths_info : PathsInfo) (visited : gset string)
    (d : string * list Entry) :
  NoDup all_paths_info.*1 → d ∈ all_paths_info → d.1 ∉ visited →
  filter (λ kv : string * list Entry, kv.1 ∈ visited ∪ {[d.1]}) all_paths_info
  ≡ₚ filter (λ kv : string * list Entry, kv.1 ∈ visited) all_paths_info ++ [d].
Proof.
  intros Hnd Hd Hvis. unfold PathsInfo in *.
  induction all_paths_info as [|e m IH]; [by apply elem_of_nil in Hd|].
  rewrite fmap_cons in Hnd. apply NoDup_cons in Hnd as [He Hnd].
  apply elem_of_cons in Hd as [->|Hd].
  - rewrite !filter_cons.
    destruct (decide (e.1 ∈ visited ∪ {[e.1]})) as [_|Hn]; [|set_solver].
    destruct (decide (e.1 ∈ visited)); [done|].
    rewrite (filter_ext_in (λ kv : string * list Entry, kv.1 ∈ visited ∪ {[e.1]})
               (λ kv : string * list Entry, kv.1 ∈ visited) m).
    + apply Permutation_cons_append.
    + intros x Hx. assert (x.1 ≠ e.1); [|set_solver].
      intros Heq. apply He. rewrite <- Heq. apply list_elem_of_fmap. by exists x.
  - assert (e.1 ≠ d.1) as Hne.
    { intros Heq. apply He. rewrite Heq. apply list_elem_of_fmap. by exists d. }
    rewrite !filter_cons.
    specialize (IH Hnd Hd).
    destruct (decide (e.1 ∈ visited ∪ {[d.1]})) as [H1|H1];
      destruct (decide (e.1 ∈ visited)) as [H2|H2].
    + simpl. by apply Permutation_skip.
    + exfalso. apply elem_of_union in H1 as [H1|H1]; [done|].
      by apply elem_of_singleton in H1.
    + exfalso. apply H1, elem_of_union. by left.
    + exact IH.
Qed.

(** Below a top-level map [m0] with distinct keys, every call returns
    combinations that hold one candidate of every destination of [m0]. *)
Lemma search_assigns (m0 : PathsInfo) (fuel : nat) (current_path : Combination)
    (current_cost : Z) (visited : gset string) (memo : Memo) :
  NoDup m0.*1 →
  (length (remaining_destinations m0 visited) < fuel)%nat →
  assigns (filter (λ kv : string * list Entry, kv.1 ∈ visited) m0) current_path →
  map_Forall (λ _, Forall (λ sc : Scored, assigns m0 sc.1)) memo →
  ∃ res memo',
    search_rec fuel (remaining_destinations m0 visited) current_path
      current_cost visited memo = Some (res, memo')
    ∧ Forall (λ sc : Scored, assigns m0 sc.1) res
    ∧ map_Forall (λ _, Forall (λ sc : Scored, assigns m0 sc.1)) memo'.
Proof.
  intros Hnd Hlen Hcp Hmemo.
  apply (search_invariant get_node_cost get_edge_cost path_str
           (λ m cp _ vis,
              m = remaining_destinations m0 vis
              ∧ assigns (filter (λ kv : string * list Entry, kv.1 ∈ vis) m0) cp)
           (Forall (λ sc : Scored, assigns m0 sc.1))
           (Forall (λ sc : Scored, assigns m0 sc.1))); try done.
  - intros cp cc vis [Hm Hcov]. symmetry in Hm.
    rewrite (filter_visited_all m0 vis Hm) in Hcov. by repeat constructor.
  - intros m cp _ vis d pc [-> Hcov] Hd Hvis Hpc _.
    split; [apply remaining_destinations_twice|].
    apply list_elem_of_filter in Hd as [_ Hd].
    destruct Hcov as (ds' & Hperm & Hall).
    exists (ds' ++ [d]). split.
    + by rewrite (filter_visited_step m0 vis d Hnd Hd Hvis), Hperm.
    + apply Forall2_app; [done|]. by repeat constructor.
  - intros combined subs Hc Hs. apply Forall_forall. intros a Ha.
    rewrite Forall_forall in Hc, Hs.
    apply add_results_elem_of in Ha as [Ha|Ha]; auto.
  - intros combined Hc. apply Forall_take. by rewrite sort_by_cost_perm.
Qed.

Lemma remaining_destinations_empty (all_paths_info : PathsInfo) :
  remaining_destinations all_paths_info ∅ = all_paths_info.
Proof.
  unfold remaining_destinations, PathsInfo in *.
  induction all_paths_info as [|e m IH]; [done|].
  rewrite filter_cons. destruct (decide (e.1 ∉ ∅)) as [_|Hn]; [by rewrite IH|].
  exfalso. apply Hn. apply not_elem_of_empty.
Qed.

Lemma filter_visited_empty (all_paths_info : PathsInfo) (visited : gset string) :
  visited = ∅ →
  filter (λ kv : string * list Entry, kv.1 ∈ visited) all_paths_info = [].
Proof.
  intros ->. unfold PathsInfo in *.
  induction all_paths_info as [|e m IH]; [done|].
  rewrite filter_cons. destruct (decide (e.1 ∈ (∅ : gset string))) as [Hin|_]; [|done].
  by apply not_elem_of_empty in Hin.
Qed.

Lemma search_assigns_top (all_paths_info : PathsInfo) :
  NoDup all_paths_info.*1 →
  ∃ res,
    search all_paths_info = Some res
    ∧ Forall (λ sc : Scored,
                assigns all_paths_info sc.1
                ∧ length sc.1 = length all_paths_info) res.
Proof.
  intros Hnd. unfold calculate_combined_paths_cost.
  destruct (search_assigns all_paths_info (S (length all_paths_info)) [] 0 ∅ ∅ Hnd)
    as (res & memo' & E & Hres & _).
  - rewrite remaining_destinations_empty. lia.
  - exists []. split; [|constructor].
    by rewrite (filter_visited_empty all_paths_info ∅ eq_refl).
  - by intros ???.
  - rewrite remaining_destinations_empty in E. rewrite E.
    exists res. split; [done|].
    eapply Forall_impl; [exact Hres|]. intros sc Hsc. split; [done|].
    destruct Hsc as (ds' & Hperm & Hall).
    by rewrite (Forall2_length _ _ _ Hall), Hperm.
Qed.

(** For a map with distinct keys, every combination of the result holds
    exactly one candidate of every destination: as many entries as there
    are destinations, each from the list of a different destination. *)
Theorem search_assigns_every_destination (all_paths_info : PathsInfo) :
  NoDup all_paths_info.*1 →
  ∃ res,
    search all_paths_info = Some res
    ∧ Forall (λ sc : Scored,
                assigns all_paths_info sc.1
                ∧ length sc.1 = length all_paths_info) res.
Proof. apply search_assigns_top. Qed.

Lemma search_empty_characterised (all_paths_info : PathsInfo) :
  NoDup all_paths_info.*1 →
  ∃ res,
    search all_paths_info = Some res
    ∧ (res = [] ↔ ∃ d, d ∈ all_paths_info ∧ no_real_path d.2).
Proof.
  intros Hnd.
  destruct (decide (Exists (λ d : string * list Entry,
                              Forall (λ pc : Entry, is_str pc.1 = true) d.2)
                           all_paths_info)) as [Hdead|Hlive].
  - apply Exists_exists in Hdead as ([d pcs] & Hd & Hno). simpl in Hno.
    exists []. split; [|split; [intros _; by exists (d, pcs)|done]].
    unfold calculate_combined_paths_cost.
    destruct (search_dead_destination get_node_cost get_edge_cost path_str
                (S (length all_paths_info)) all_paths_info [] 0 ∅ ∅)
      as (res & memo' & -> & -> & _); [lia| |by intros ???|done].
    exists d. split; [set_solver|]. split; [by exists pcs|].
    intros pcs' Hd'.
    assert (pcs' = pcs) as ->; [|done].
    clear Hno. induction all_paths_info as [|e m IH]; [by apply elem_of_nil in Hd|].
    rewrite fmap_cons in Hnd. apply NoDup_cons in Hnd as [He Hnd].
    apply elem_of_cons in Hd as [<-|Hd]; apply elem_of_cons in Hd' as [Heq|Hd'].
    + by injection Heq.
    + exfalso. apply He. apply list_elem_of_fmap. by exists (d, pcs').
    + exfalso. apply He. rewrite <- Heq. apply list_elem_of_fmap. by exists (d, pcs).
    + by apply IH.
  - unfold calculate_combined_paths_cost.
    destruct (search_nonempty (S (length all_paths_info)) all_paths_info [] 0 ∅ ∅)
      as (res & memo' & -> & Hne & _); [lia| |by intros ???|].
    + intros d Hd. split; [set_solver|].
      destruct (decide (Exists (λ pc : Entry, is_str pc.1 = false) d.2))
        as [Hex|Hnex].
      * apply Exists_exists in Hex as (pc & Hpc & Hstr). by exists pc.
      * exfalso. apply Hlive. apply Exists_exists. exists d. split; [done|].
        apply Forall_forall. intros pc Hpc.
        destruct (is_str pc.1) eqn:E; [done|].
        exfalso. apply Hnex. apply Exists_exists. by exists pc.
    + exists res. split; [done|]. split; [done|].
      intros (d & Hd & Hno). exfalso. apply Hlive. apply Exists_exists. by exists d.
Qed.

(** For a map with distinct keys, the result is empty exactly when some
    destination has no real path. *)
Theorem search_empty_iff (all_paths_info : PathsInfo) :
  NoDup all_paths_info.*1 →
  ∃ res,
    search all_paths_info = Some res
    ∧ (res = [] ↔ ∃ d, d ∈ all_paths_info ∧ no_real_path d.2).
Proof. apply search_empty_characterised. Qed.

(** The same paths, chosen in another order, have the same true cost and
    are therefore refused by the deduplication. *)
Theorem add_result_refuses_reordering (combined : list Scored)
    (c c' : Combination) :
  (c, total_cost_of get_node_cost get_edge_cost c) ∈ combined →
  c' ≡ₚ c →
  add_result combined (c', total_cost_of get_node_cost get_edge_cost c') = combined.
Proof.
  intros Hin Hperm. unfold add_result. simpl.
  assert (path_already_exists combined c'
            (total_cost_of get_node_cost get_edge_cost c') = true) as ->; [|done].
  apply path_already_exists_spec.
  exists (c, total_cost_of get_node_cost get_edge_cost c). split; [done|].
  split; simpl.
  - by apply total_cost_of_Permutation.
  - intros p Hp. by rewrite <- Hperm.
Qed.

(** The candidates of a single destination, each as a combination of its
    own. *)
Lemma try_path_single (d : string) (pcs0 pcs : list Entry)
    (acc : list Scored) (memo : Memo) :
  Forall (λ pc : Entry, is_str pc.1 = false) pcs →
  for_each (try_path get_node_cost get_edge_cost (search_rec 1) [(d, pcs0)] [] ∅ d)
           pcs (acc, memo)
  = Some (foldl add_result acc (map (λ pc : Entry, ([pc], pc.2)) pcs), memo).
Proof.
  intros Hreal. revert acc.
  induction Hreal as [|[p z] pcs Hp Hreal IH]; intros acc; [done|].
  cbn [for_each map foldl]. unfold try_path at 1. cbn [fst snd] in *.
  rewrite Hp.
  assert (remaining_destinations [(d, pcs0)] (∅ ∪ {[d]}) = []) as ->.
  { unfold remaining_destinations, PathsInfo. rewrite filter_cons.
    destruct (decide ((d, pcs0).1 ∉ (∅ : gset string) ∪ {[d]})) as [Hn|_]; [|done].
    exfalso. apply Hn. simpl. set_solver. }
  set (tc := total_cost_of get_node_cost get_edge_cost _).
  assert (tc = z) as ->.
  { subst tc. unfold total_cost_of. simpl. by rewrite total_cost_single. }
  cbn [calculate_combined_paths_cost_rec search_body app add_results foldl].
  apply IH.
Qed.

Lemma add_result_singles (l0 l : list Entry) :
  NoDup (l0 ++ l) →
  foldl add_result (map (λ pc : Entry, ([pc], pc.2)) l0)
        (map (λ pc : Entry, ([pc], pc.2)) l)
  = map (λ pc : Entry, ([pc], pc.2)) (l0 ++ l).
Proof.
  revert l0. induction l as [|pc l IH]; intros l0 Hnd; simpl.
  - by rewrite app_nil_r.
  - assert (add_result (map (λ pc : Entry, ([pc], pc.2)) l0) ([pc], pc.2)
            = map (λ pc : Entry, ([pc], pc.2)) (l0 ++ [pc])) as ->.
    { unfold add_result.
      destruct (path_already_exists _ _ _) eqn:E; [|by rewrite map_app].
      apply path_already_exists_spec in E as (a & Ha & _ & Hsub).
      apply list_elem_of_fmap in Ha as (pc' & -> & Hpc'). simpl in Hsub.
      specialize (Hsub pc ltac:(left)). apply list_elem_of_singleton in Hsub as ->.
      apply NoDup_app in Hnd as (_ & Hdisj & _).
      exfalso. apply (Hdisj pc' Hpc'). left. }
    rewrite IH; [by rewrite <- app_assoc|].
    by rewrite <- app_assoc.
Qed.

(** For a single destination whose candidates are distinct path objects,
    the result is the candidate list in ascending order of raw cost (equal
    costs in the order given), cut to five, each candidate with its raw
    cost as true cost. *)
Theorem search_single_destination (d : string) (pcs : list Entry) :
  NoDup pcs →
  Forall (λ pc : Entry, is_str pc.1 = false) pcs →
  search [(d, pcs)]
  = Some (take 5 (sort_by_cost (map (λ pc : Entry, ([pc], pc.2)) pcs))).
Proof.
  intros Hnd Hreal. unfold calculate_combined_paths_cost. simpl.
  unfold search_body at 1. rewrite lookup_empty. simpl.
  unfold try_destination at 1. simpl.
  rewrite bool_decide_eq_false_2 by set_solver.
  rewrite (try_path_single d pcs pcs [] ∅ Hreal). simpl.
  pose proof (add_result_singles [] pcs Hnd) as Hs. simpl in Hs.
  exact (f_equal (λ l, Some (take 5 (sort_by_cost l))) Hs).
Qed.
End SearchMore.

Lemma map_scenario_A_keys : NoDup map_scenario_A.*1.
Proof. repeat constructor. set_solver. Qed.

Lemma search_assigns_every_destination_witness :
  NoDup map_scenario_A.*1
  ∧ ∃ res,
      calculate_combined_paths_cost example_node_cost example_edge_cost
        example_path_str map_scenario_A = Some res
      ∧ Forall (λ sc : Scored,
                  assigns map_scenario_A sc.1
                  ∧ length sc.1 = length map_scenario_A) res.
Proof.
  split; [exact map_scenario_A_keys|].
  exact (search_assigns_every_destination example_node_cost example_edge_cost
           example_path_str map_scenario_A map_scenario_A_keys).
Defined.

Lemma map_with_placeholder_keys : NoDup map_with_placeholder.*1.
Proof. repeat constructor; set_solver. Qed.

Lemma search_empty_iff_witness :
  NoDup map_with_placeholder.*1
  ∧ ∃ res,
      calculate_combined_paths_cost example_node_cost example_edge_cost
        example_path_str map_with_placeholder = Some res
      ∧ (res = [] ↔ ∃ d, d ∈ map_with_placeholder ∧ no_real_path d.2).
Proof.
  split; [exact map_with_placeholder_keys|].
  exact (search_empty_iff example_node_cost example_edge_cost
           example_path_str map_with_placeholder map_with_placeholder_keys).
Defined.

Lemma add_result_refuses_reordering_witness :
  ([(example_path ["S"; "M"; "D1"], 5); (example_path ["S"; "M"; "D2"], 5)],
   total_cost_of example_node_cost example_edge_cost
     [(example_path ["S"; "M"; "D1"], 5); (example_path ["S"; "M"; "D2"], 5)])
    ∈ [([(example_path ["S"; "M"; "D1"], 5); (example_path ["S"; "M"; "D2"], 5)],
        total_cost_of example_node_cost example_edge_cost
          [(example_path ["S"; "M"; "D1"], 5); (example_path ["S"; "M"; "D2"], 5)])]
  ∧ [(example_path ["S"; "M"; "D2"], 5); (example_path ["S"; "M"; "D1"], 5)]
      ≡ₚ [(example_path ["S"; "M"; "D1"], 5); (example_path ["S"; "M"; "D2"], 5)]
  ∧ add_result
      [([(example_path ["S"; "M"; "D1"], 5); (example_path ["S"; "M"; "D2"], 5)],
        total_cost_of example_node_cost example_edge_cost
          [(example_path ["S"; "M"; "D1"], 5); (example_path ["S"; "M"; "D2"], 5)])]
      ([(example_path ["S"; "M"; "D2"], 5); (example_path ["S"; "M"; "D1"], 5)],
       total_cost_of example_node_cost example_edge_cost
         [(example_path ["S"; "M"; "D2"], 5); (example_path ["S"; "M"; "D1"], 5)])
    = [([(example_path ["S"; "M"; "D1"], 5); (example_path ["S"; "M"; "D2"], 5)],
        total_cost_of example_node_cost example_edge_cost
          [(example_path ["S"; "M"; "D1"], 5); (example_path ["S"; "M"; "D2"], 5)])].
Proof.
  split; [left|]. split; [apply perm_swap|].
  exact (add_result_refuses_reordering example_node_cost example_edge_cost
           _ _ _ (list_elem_of_here _ _) (perm_swap _ _ _)).
Defined.

Lemma search_single_destination_witness :
  NoDup [(example_path ["A"; "Y"; "B"], 12); (example_path ["A"; "X"; "B"], 10)]
  ∧ Forall (λ pc : Entry, is_str pc.1 = false)
      [(example_path ["A"; "Y"; "B"], 12); (example_path ["A"; "X"; "B"], 10)]
  ∧ calculate_combined_paths_cost example_node_cost example_edge_cost
      example_path_str
      [("B", [(example_path ["A"; "Y"; "B"], 12); (example_path ["A"; "X"; "B"], 10)])]
    = Some (take 5 (sort_by_cost
              (map (λ pc : Entry, ([pc], pc.2))
                 [(example_path ["A"; "Y"; "B"], 12);
                  (example_path ["A"; "X"; "B"], 10)]))).
Proof.
  assert (NoDup [(example_path ["A"; "Y"; "B"], 12);
                 (example_path ["A"; "X"; "B"], 10)]) as Hnd.
  { apply NoDup_cons. split; [|apply NoDup_singleton].
    intros Hin%list_elem_of_singleton. discriminate Hin. }
  assert (Forall (λ pc : Entry, is_str pc.1 = false)
            [(example_path ["A"; "Y"; "B"], 12);
             (example_path ["A"; "X"; "B"], 10)]) as Hreal
    by (by repeat constructor).
  split; [exact Hnd|]. split; [exact Hreal|].
  exact (search_single_destination example_node_cost example_edge_cost
           example_path_str "B" _ Hnd Hreal).
Defined.

(** ** [find_all_paths_to_destinations] on distinct destination names *)

Lemma dict_set_fresh (d : PathsInfo) (k : string) (v : list Entry) :
  k ∉ d.*1 → dict_set d k v = d ++ [(k, v)].
Proof.
  induction d as [|[k' v'] d IH]; simpl; [done|].
  intros Hk. case_bool_decide as Heq.
  - exfalso. apply Hk. subst. left.
  - rewrite IH; [done|]. intros Hin. apply Hk. by right.
Qed.

Lemma find_all_paths_from (run_query : string → list Entry)
    (destination_names : list string) (acc : PathsInfo) :
  NoDup destination_names →
  (∀ d, d ∈ destination_names → d ∉ acc.*1) →
  foldl (λ all_paths_info destination_name,
           match run_query destination_name with
           | [] => all_paths_info
           | _ :: _ =>
               dict_set all_paths_info destination_name (run_query destination_name)
           end) acc destination_names
  = acc ++ map (λ d, (d, run_query d))
               (filter (λ d, run_query d ≠ []) destination_names).
Proof.
  intros Hnd. revert acc.
  induction Hnd as [|k ks Hk Hnd IH]; intros acc Hfresh; simpl.
  - by rewrite app_nil_r.
  - rewrite filter_cons. destruct (run_query k) as [|pc rest] eqn:E.
    + destruct (decide ([] ≠ [])); [done|].
      apply IH. intros d Hd. apply Hfresh. by right.
    + destruct (decide (pc :: rest ≠ [])) as [_|Hn]; [|by exfalso; apply Hn].
      rewrite dict_set_fresh by (apply Hfresh; left).
      rewrite IH.
      * simpl. by rewrite <- app_assoc, E.
      * intros d Hd. rewrite fmap_app. simpl.
        intros [Hin|Hin%list_elem_of_singleton]%elem_of_app.
        -- by apply (Hfresh d ltac:(by right)).
        -- by subst.
Qed.

Lemma find_all_paths_from_nil (run_query : string → list Entry)
    (destination_names : list string) :
  NoDup destination_names →
  find_all_paths_to_destinations run_query destination_names
  = map (λ d, (d, run_query d))
        (filter (λ d, run_query d ≠ []) destination_names).
Proof.
  intros Hnd. unfold find_all_paths_to_destinations.
  rewrite (find_all_paths_from run_query destination_names [] Hnd); [done|].
  intros d _ Hin. by apply elem_of_nil in Hin.
Qed.

(** For distinct destination names the map lists, in the order asked, the
    destinations whose query returned something, each with the records of
    its query; the others have no key. *)
Theorem find_all_paths_distinct (run_query : string → list Entry)
    (destination_names : list string) :
  NoDup destination_names →
  find_all_paths_to_destinations run_query destination_names
  = map (λ d, (d, run_query d))
        (filter (λ d, run_query d ≠ []) destination_names).
Proof. apply find_all_paths_from_nil. Qed.

(** The pipeline of [interactive_shortest_path]: when the query returns
    path objects only, the search over the map that
    [find_all_paths_to_destinations] builds always yields a combination,
    and every combination holds one path for each destination that has a
    path and nothing for a destination that has none. *)
Theorem search_after_find_all
    (get_node_cost : string → Z) (get_edge_cost : string * string → Z)
    (path_str : Path → string) (run_query : string → list Entry)
    (destination_names : list string) :
  NoDup destination_names →
  (∀ d, Forall (λ pc : Entry, is_str pc.1 = false) (run_query d)) →
  ∃ res,
    calculate_combined_paths_cost get_node_cost get_edge_cost path_str
      (find_all_paths_to_destinations run_query destination_names) = Some res
    ∧ res ≠ []
    ∧ Forall (λ sc : Scored,
                assigns (map (λ d, (d, run_query d))
                             (filter (λ d, run_query d ≠ []) destination_names))
                        sc.1) res.
Proof.
  intros Hnd Hreal. rewrite (find_all_paths_from_nil run_query _ Hnd).
  set (m := map (λ d, (d, run_query d))
                (filter (λ d, run_query d ≠ []) destination_names)).
  assert (NoDup m.*1) as Hkeys.
  { subst m. rewrite <- list_fmap_compose.
    assert (((fst ∘ λ d : string, (d, run_query d)) <$>
               filter (λ d, run_query d ≠ []) destination_names)
            = filter (λ d, run_query d ≠ []) destination_names) as ->.
    { rewrite <- (list_fmap_id (filter _ destination_names)) at 2.
      by apply list_fmap_ext. }
    by apply NoDup_filter. }
  destruct (search_assigns_top get_node_cost get_edge_cost
              path_str m Hkeys) as (res & E & Hres).
  destruct (search_empty_characterised get_node_cost get_edge_cost path_str m Hkeys)
    as (res' & E' & Hiff).
  rewrite E in E'. injection E' as <-.
  exists res. split; [done|]. split.
  - intros Hnil. apply Hiff in Hnil as ([d pcs] & Hd & Hno).
    subst m. apply list_elem_of_fmap in Hd as (d' & [= -> ->] & Hd').
    apply list_elem_of_filter in Hd' as [Hne _]. simpl in Hno.
    specialize (Hreal d'). destruct (run_query d') as [|pc rest]; [done|].
    apply Forall_cons in Hno as [Hs _]. apply Forall_cons in Hreal as [Hr _].
    congruence.
  - eapply Forall_impl; [exact Hres|]. by intros sc [Hsc _].
Qed.

Lemma find_all_paths_distinct_witness :
  NoDup ["D1"; "D2"]
  ∧ find_all_paths_to_destinations
      (λ d, if bool_decide (d = "D1")
            then [(example_path ["S"; "X"; "D1"], 3)] else [])
      ["D1"; "D2"]
    = map (λ d, (d, if bool_decide (d = "D1")
                    then [(example_path ["S"; "X"; "D1"], 3)] else []))
          (filter (λ d, (if bool_decide (d = "D1")
                         then [(example_path ["S"; "X"; "D1"], 3)] else []) ≠ [])
                  ["D1"; "D2"]).
Proof.
  assert (NoDup ["D1"; "D2"]) as Hnd.
  { apply NoDup_cons. split; [|apply NoDup_singleton].
    intros Hin%list_elem_of_singleton. discriminate Hin. }
  split; [exact Hnd|].
  exact (find_all_paths_distinct _ _ Hnd).
Defined.

Lemma search_after_find_all_witness :
  NoDup ["D1"; "D2"]
  ∧ (∀ d, Forall (λ pc : Entry, is_str pc.1 = false)
            (if bool_decide (d = "D1")
             then [(example_path ["S"; "X"; "D1"], 3)] else []))
  ∧ ∃ res,
      calculate_combined_paths_cost example_node_cost example_edge_cost
        example_path_str
        (find_all_paths_to_destinations
           (λ d, if bool_decide (d = "D1")
                 then [(example_path ["S"; "X"; "D1"], 3)] else [])
           ["D1"; "D2"]) = Some res
      ∧ res ≠ []
      ∧ Forall (λ sc : Scored,
                  assigns
                    (map (λ d, (d, if bool_decide (d = "D1")
                                   then [(example_path ["S"; "X"; "D1"], 3)]
                                   else []))
                         (filter (λ d, (if bool_decide (d = "D1")
                                        then [(example_path ["S"; "X"; "D1"], 3)]
                                        else []) ≠ [])
                                 ["D1"; "D2"]))
                    sc.1) res.
Proof.
  assert (NoDup ["D1"; "D2"]) as Hnd.
  { apply NoDup_cons. split; [|apply NoDup_singleton].
    intros Hin%list_elem_of_singleton. discriminate Hin. }
  assert (∀ d, Forall (λ pc : Entry, is_str pc.1 = false)
                 (if bool_decide (d = "D1")
                  then [(example_path ["S"; "X"; "D1"], 3)] else [])) as Hreal.
  { intros d. case_bool_decide; by repeat constructor. }
  split; [exact Hnd|]. split; [exact Hreal|].
  exact (search_after_find_all example_node_cost example_edge_cost
           example_path_str _ _ Hnd Hreal).
Defined.

(** ** The padded candidate lists and the rows of [userStory4.py] *)
Section DisplayFacts.
Import UserStory4Display.
Variable run_query : string → list Entry.

(** The query's records followed by as many fillers as are missing to
    five. *)
Local Abbreviation padded :=
  (λ l : list Entry, l ++ replicate (5 - length l) no_path_filler).

(** The entry of row [idx] for destination [d]: its [idx]-th path, or the
    filler. *)
Local Abbreviation row_entry :=
  (λ (idx : nat) (d : string), default no_path_filler (run_query d !! idx)).

Lemma pad_to_five_spec (fuel : nat) (l : list Entry) :
  (5 - length l < fuel)%nat → pad_to_five fuel l = Some (padded l).
Proof.
  revert l. induction fuel as [|fuel IH]; intros l Hlen; [lia|]. simpl.
  case_bool_decide as Hlt.
  - rewrite IH by (rewrite length_app; simpl; lia).
    rewrite length_app. simpl. rewrite <- app_assoc. do 2 f_equal.
    replace (5 - length l)%nat with (S (5 - (length l + 1)))%nat by lia.
    done.
  - replace (5 - length l)%nat with 0%nat by lia. simpl. by rewrite app_nil_r.
Qed.

Lemma find_5_spec (destination_names : list string) :
  find_5_shortest_paths_with_exclusion run_query destination_names
  = Some (foldl (λ acc d, dict_set acc d (padded (run_query d)))
                [] destination_names).
Proof.
  unfold find_5_shortest_paths_with_exclusion. generalize ([] : PathsInfo).
  induction destination_names as [|d ds IH]; intros acc; [done|].
  cbn [for_each foldl]. rewrite pad_to_five_spec by lia. apply IH.
Qed.

Lemma dict_get_dict_set (m : PathsInfo) (k k' : string) (v : list Entry) :
  dict_get (dict_set m k v) k'
  = if bool_decide (k = k') then Some v else dict_get m k'.
Proof.
  induction m as [|[k0 v0] m IH]; simpl.
  - done.
  - destruct (decide (k0 = k)) as [->|E0].
    + rewrite bool_decide_eq_true_2 by done. simpl.
      by repeat case_bool_decide.
    + rewrite bool_decide_eq_false_2 by done. simpl. rewrite IH.
      repeat case_bool_decide; congruence.
Qed.

Lemma dict_get_find_5 (destination_names : list string) (acc : PathsInfo)
    (d : string) :
  dict_get (foldl (λ acc d, dict_set acc d (padded (run_query d)))
                  acc destination_names) d
  = if decide (d ∈ destination_names) then Some (padded (run_query d))
    else dict_get acc d.
Proof.
  revert acc. induction destination_names as [|k ks IH]; intros acc; simpl.
  - destruct (decide (d ∈ [])) as [Hin|_]; [by apply elem_of_nil in Hin|done].
  - rewrite IH, dict_get_dict_set.
    destruct (decide (d ∈ ks)) as [Hin|Hnin].
    + destruct (decide (d ∈ k :: ks)) as [_|Hn]; [done|]. exfalso. apply Hn. by right.
    + case_bool_decide as Hk.
      * subst k. destruct (decide (d ∈ d :: ks)) as [_|Hn]; [done|].
        exfalso. apply Hn. left.
      * destruct (decide (d ∈ k :: ks)) as [Hin|_]; [|done].
        apply elem_of_cons in Hin as [->|Hin]; done.
Qed.

Lemma padded_lookup (l : list Entry) (idx : nat) :
  (idx < 5)%nat → padded l !! idx = Some (default no_path_filler (l !! idx)).
Proof.
  intros Hidx. destruct (decide (idx < length l)%nat) as [Hlt|Hge].
  - rewrite lookup_app_l by done.
    destruct (lookup_lt_is_Some_2 l idx Hlt) as [e ->]. done.
  - rewrite lookup_app_r by lia. rewrite (lookup_ge_None_2 l idx) by lia. simpl.
    apply lookup_replicate_2. lia.
Qed.

Lemma paths_data_find_5 (destination_names : list string) (idx : nat) :
  (idx < 5)%nat →
  paths_data (foldl (λ acc d, dict_set acc d (padded (run_query d)))
                    [] destination_names) destination_names idx
  = Some (map (row_entry idx) destination_names).
Proof.
  intros Hidx. unfold paths_data. apply mapM_Some.
  apply Forall2_fmap_r, Forall_Forall2_diag, Forall_forall.
  intros d Hd. rewrite dict_get_find_5.
  destruct (decide (d ∈ destination_names)); [|done].
  by apply padded_lookup.
Qed.

(** After the padding, each of the five rows can be read for all the
    destinations asked: no key is missing and no index is out of range, and
    a destination with fewer paths than the row number is shown with the
    filler. *)
Theorem display_rows_defined (destination_names : list string) (idx : nat) :
  destination_names ≠ [] → (idx < 5)%nat →
  ∃ all_paths_info,
    find_5_shortest_paths_with_exclusion run_query destination_names
    = Some all_paths_info
    ∧ paths_data all_paths_info destination_names idx
      = Some (map (row_entry idx) destination_names)
    ∧ is_Some (row_total all_paths_info destination_names idx).
Proof.
  intros Hne Hidx. eexists. split; [apply find_5_spec|].
  split; [by apply paths_data_find_5|].
  unfold row_total. rewrite paths_data_find_5 by done.
  destruct destination_names; [done|]. simpl. by eexists.
Qed.

Lemma row_total_with_string (all_paths_info : PathsInfo)
    (destination_names : list string) (idx : nat) (row1 row2 : list Entry)
    (s : string) (z : Z) :
  paths_data all_paths_info destination_names idx
  = Some (row1 ++ (PathStr s, z) :: row2) →
  row_total all_paths_info destination_names idx
  = Some (sum (map snd (row1 ++ (PathStr s, z) :: row2)), ∅).
Proof.
  intros E. unfold row_total. rewrite E.
  destruct (row1 ++ (PathStr s, z) :: row2) as [|e row] eqn:E2.
  { apply app_nil in E2 as [_ E2]. discriminate E2. }
  rewrite <- E2, !map_app. simpl. by rewrite userStory4_total_cost_with_string.
Qed.

(** A row in which some destination has run out of paths shows the plain
    sum of the sub-costs and marks no node, whatever the other paths of the
    row share. *)
Theorem display_row_with_filler (destination_names : list string) (idx : nat)
    (d : string) :
  (idx < 5)%nat → d ∈ destination_names → (length (run_query d) ≤ idx)%nat →
  ∃ all_paths_info,
    find_5_shortest_paths_with_exclusion run_query destination_names
    = Some all_paths_info
    ∧ row_total all_paths_info destination_names idx
      = Some (sum (map snd (map (row_entry idx) destination_names)), ∅).
Proof.
  intros Hidx Hd Hlen. eexists. split; [apply find_5_spec|].
  apply list_elem_of_split in Hd as (ds1 & ds2 & ->).
  assert (map (row_entry idx) (ds1 ++ d :: ds2)
          = map (row_entry idx) ds1
            ++ (PathStr "没有可用的路径fk", 0) :: map (row_entry idx) ds2) as Hrow.
  { rewrite map_app. simpl.
    by rewrite (lookup_ge_None_2 (run_query d) idx) by done. }
  rewrite Hrow. apply row_total_with_string.
  rewrite paths_data_find_5 by done. by rewrite Hrow.
Qed.
End DisplayFacts.

Lemma display_rows_defined_witness :
  ["D1"; "D2"] ≠ [] ∧ (3 < 5)%nat
  ∧ ∃ all_paths_info,
      UserStory4Display.find_5_shortest_paths_with_exclusion
        (λ d, if bool_decide (d = "D1")
              then [(example_path ["S"; "X"; "D1"], 3)] else [])
        ["D1"; "D2"] = Some all_paths_info
      ∧ UserStory4Display.paths_data all_paths_info ["D1"; "D2"] 3
        = Some (map (λ d, default UserStory4Display.no_path_filler
                            ((if bool_decide (d = "D1")
                              then [(example_path ["S"; "X"; "D1"], 3)] else [])
                             !! 3%nat))
                    ["D1"; "D2"])
      ∧ is_Some (UserStory4Display.row_total all_paths_info ["D1"; "D2"] 3).
Proof.
  split; [discriminate|]. split; [lia|].
  exact (display_rows_defined
           (λ d, if bool_decide (d = "D1")
                 then [(example_path ["S"; "X"; "D1"], 3)] else [])
           ["D1"; "D2"] 3 ltac:(discriminate) ltac:(lia)).
Defined.

Lemma display_row_with_filler_witness :
  (1 < 5)%nat ∧ "D1" ∈ ["D1"; "D2"]
  ∧ (length (if bool_decide ("D1" = "D1")
             then [(example_path ["S"; "X"; "D1"], 3)] else []) ≤ 1)%nat
  ∧ ∃ all_paths_info,
      UserStory4Display.find_5_shortest_paths_with_exclusion
        (λ d, if bool_decide (d = "D1")
              then [(example_path ["S"; "X"; "D1"], 3)] else [])
        ["D1"; "D2"] = Some all_paths_info
      ∧ UserStory4Display.row_total all_paths_info ["D1"; "D2"] 1
        = Some (sum (map snd
                       (map (λ d, default UserStory4Display.no_path_filler
                                    ((if bool_decide (d = "D1")
                                      then [(example_path ["S"; "X"; "D1"], 3)]
                                      else []) !! 1%nat))
                            ["D1"; "D2"])), ∅).
Proof.
  split; [lia|]. split; [left|]. split; [simpl; lia|].
  exact (display_row_with_filler
           (λ d, if bool_decide (d = "D1")
                 then [(example_path ["S"; "X"; "D1"], 3)] else [])
           ["D1"; "D2"] 1 "D1" ltac:(lia) ltac:(left) ltac:(simpl; lia)).
Defined.

(** ** The prompts *)

Lemma list_remove_perm (x : string) (l : list string) :
  x ∈ l → l ≡ₚ x :: list_remove x l.
Proof.
  induction l as [|y l IH]; [by intros ?%elem_of_nil|]. simpl.
  case_bool_decide as E; [by subst|].
  intros [->|Hin]%elem_of_cons; [done|].
  rewrite (IH Hin) at 1. apply Permutation_swap.
Qed.

Section PromptFacts.
Variable strip : string → string.
Variable lower : string → string.

Lemma get_user_input_spec (valid_options inputs : list string)
    (result : option string) (unread : list string) :
  get_user_input strip lower valid_options inputs = Returned result unread →
  ∃ skipped line,
    inputs = skipped ++ line :: unread
    ∧ Forall (λ x, lower (strip x) ≠ "exit" ∧ (strip x ∉ valid_options)
                   ∧ lower (strip x) ≠ "ok") skipped
    ∧ ((result = None ∧ lower (strip line) = "exit")
       ∨ (result = Some (strip line) ∧ lower (strip line) ≠ "exit"
          ∧ (strip line ∈ valid_options ∨ lower (strip line) = "ok"))).
Proof.
  induction inputs as [|x inputs IH]; simpl; [done|].
  case_bool_decide as Hexit.
  - intros [= <- <-]. exists [], x. split; [done|]. split; [constructor|]. by left.
  - destruct (bool_decide (strip x ∈ valid_options)
              || bool_decide (lower (strip x) = "ok")) eqn:Hacc.
    + intros [= <- <-]. exists [], x. split; [done|]. split; [constructor|].
      right. split; [done|]. split; [done|].
      apply orb_true_iff in Hacc as [H|H]; apply bool_decide_eq_true in H; auto.
    + intros (skipped & line & -> & Hskip & Hres)%IH.
      exists (x :: skipped), line. split; [done|]. split; [|done].
      constructor; [|done].
      apply orb_false_iff in Hacc as [H1 H2].
      apply bool_decide_eq_false in H1, H2. done.
Qed.

(** [get_user_input] returns at the first line that, stripped, is "exit"
    in any case, or is a valid option, or is "ok" in any case; the lines
    before it are skipped.  "exit" wins: [None] is returned even when the
    line is a valid option. *)
Theorem get_user_input_first_accepted (valid_options inputs : list string)
    (result : option string) (unread : list string) :
  get_user_input strip lower valid_options inputs = Returned result unread →
  ∃ skipped line,
    inputs = skipped ++ line :: unread
    ∧ Forall (λ x, lower (strip x) ≠ "exit" ∧ (strip x ∉ valid_options)
                   ∧ lower (strip x) ≠ "ok") skipped
    ∧ ((result = None ∧ lower (strip line) = "exit")
       ∨ (result = Some (strip line) ∧ lower (strip line) ≠ "exit"
          ∧ (strip line ∈ valid_options ∨ lower (strip line) = "ok"))).
Proof. apply get_user_input_spec. Qed.

(** With distinct destinations on offer, what [get_valid_destination]
    returns, if it returns a list, is a non-empty list of distinct
    destinations, each already selected or on offer at the start. *)
Theorem get_valid_destination_selection (fuel : nat)
    (destinations selected inputs : list string)
    (result : list string) (unread : list string) :
  NoDup (selected ++ destinations) →
  get_valid_destination strip lower fuel destinations selected inputs
  = Some (Returned (Some result) unread) →
  result ≠ [] ∧ NoDup result
  ∧ ∀ x, x ∈ result → x ∈ selected ∨ x ∈ destinations.
Proof.
  revert destinations selected inputs.
  induction fuel as [|fuel IH]; intros destinations selected inputs Hnd; [done|].
  simpl. destruct (get_user_input _ _ _ _) as [name rest|]; [|done].
  case_bool_decide as Hok.
  - destruct selected as [|s0 sel]; [done|]. intros [= <- <-].
    split; [done|]. split; [by apply NoDup_app in Hnd as [? _]|]. by left.
  - destruct name as [name|]; [|by apply IH].
    destruct (bool_decide (name ≠ "") && bool_decide (name ∈ destinations))
      eqn:Hsel; [|by apply IH].
    apply andb_true_iff in Hsel as [_ Hin]. apply bool_decide_eq_true in Hin.
    intros Hres. apply IH in Hres as (Hne & Hnd' & Hsub).
    + split; [done|]. split; [done|].
      intros x [[Hx|Hx%list_elem_of_singleton]%elem_of_app|Hx]%Hsub.
      * by left.
      * subst. by right.
      * right. rewrite (list_remove_perm name destinations Hin). by right.
    + rewrite (list_remove_perm name destinations Hin) in Hnd.
      rewrite <- app_assoc. simpl. done.
Qed.

Lemma get_valid_destination_last_line (fuel : nat)
    (destinations selected inputs : list string)
    (result : option (list string)) (unread : list string) :
  get_valid_destination strip lower fuel destinations selected inputs
  = Some (Returned result unread) →
  ∃ before line, inputs = before ++ line :: unread ∧ strip line = "ok".
Proof.
  revert destinations selected inputs.
  induction fuel as [|fuel IH]; intros destinations selected inputs; [done|].
  simpl. destruct (get_user_input _ _ _ _) as [name rest|] eqn:E; [|done].
  apply get_user_input_spec in E
    as (skipped & line & -> & _ & Hres).
  assert (∀ ds sel,
            get_valid_destination strip lower fuel ds sel rest
            = Some (Returned result unread) →
            ∃ before line0,
              skipped ++ line :: rest = before ++ line0 :: unread
              ∧ strip line0 = "ok") as Hrec.
  { intros ds sel (before & line0 & -> & Hline0)%IH.
    exists (skipped ++ line :: before), line0. by rewrite <- app_assoc. }
  case_bool_decide as Hok.
  - intros [= <- <-]. exists skipped, line. split; [done|].
    destruct Hres as [[-> _]|[-> _]]; [done|]. by injection Hok.
  - destruct name as [name|]; [|by apply Hrec].
    destruct (bool_decide (name ≠ "") && bool_decide (name ∈ destinations));
      by apply Hrec.
Qed.

(** [get_valid_destination] returns only at a line that, stripped, is
    exactly "ok": a line "exit", a valid or an invalid name, or "ok" in
    another case never ends the prompt. *)
Theorem get_valid_destination_returns_on_ok (fuel : nat)
    (destinations selected inputs : list string)
    (result : option (list string)) (unread : list string) :
  get_valid_destination strip lower fuel destinations selected inputs
  = Some (Returned result unread) →
  ∃ before line, inputs = before ++ line :: unread ∧ strip line = "ok".
Proof. apply get_valid_destination_last_line. Qed.

Lemma get_valid_destination_terminates (fuel : nat)
    (destinations selected inputs : list string) :
  (length inputs < fuel)%nat →
  is_Some (get_valid_destination strip lower fuel destinations selected inputs).
Proof.
  revert destinations selected inputs.
  induction fuel as [|fuel IH]; intros destinations selected inputs Hlen; [lia|].
  simpl. destruct (get_user_input _ _ _ _) as [name rest|] eqn:E; [|by eexists].
  apply get_user_input_spec in E as (skipped & line & -> & _ & _).
  rewrite length_app in Hlen. simpl in Hlen.
  case_bool_decide; [by eexists|].
  destruct name as [name|]; [|apply IH; lia].
  destruct (bool_decide (name ≠ "") && bool_decide (name ∈ destinations));
    apply IH; lia.
Qed.

(** Without a line "ok" the prompt never returns: it asks again after
    every line, also after "exit", until the input ends. *)
Theorem get_valid_destination_without_ok (destinations selected inputs : list string) :
  Forall (λ x, strip x ≠ "ok") inputs →
  get_valid_destination strip lower (S (length inputs)) destinations selected inputs
  = Some EOFError.
Proof.
  intros Hno.
  destruct (get_valid_destination_terminates (S (length inputs)) destinations
              selected inputs) as [[result unread|] E]; [lia| |done].
  exfalso.
  apply get_valid_destination_last_line in E as (before & line & -> & Hok).
  rewrite Forall_app, Forall_cons in Hno. by destruct Hno as (_ & Hline & _).
Qed.
End PromptFacts.

Lemma get_user_input_first_accepted_witness :
  get_user_input (λ s, s) (λ s, s) ["D1"; "D2"; "ok"] ["D9"; "D2"; "ok"]
  = Returned (Some "D2") ["ok"]
  ∧ ∃ skipped line,
      ["D9"; "D2"; "ok"] = skipped ++ line :: ["ok"]
      ∧ Forall (λ x, x ≠ "exit" ∧ (x ∉ ["D1"; "D2"; "ok"]) ∧ x ≠ "ok") skipped
      ∧ ((Some "D2" = None ∧ line = "exit")
         ∨ (Some "D2" = Some line ∧ line ≠ "exit"
            ∧ (line ∈ ["D1"; "D2"; "ok"] ∨ line = "ok"))).
Proof.
  split; [by vm_compute|].
  exact (get_user_input_first_accepted (λ s, s) (λ s, s)
           ["D1"; "D2"; "ok"] ["D9"; "D2"; "ok"] (Some "D2") ["ok"] eq_refl).
Defined.

Lemma get_valid_destination_selection_witness :
  NoDup ([] ++ ["D1"; "D2"])
  ∧ get_valid_destination (λ s, s) (λ s, s) 6 ["D1"; "D2"] []
      ["D2"; "exit"; "D2"; "D1"; "ok"]
    = Some (Returned (Some ["D2"; "D1"]) [])
  ∧ ["D2"; "D1"] ≠ [] ∧ NoDup ["D2"; "D1"]
  ∧ ∀ x, x ∈ ["D2"; "D1"] → x ∈ [] ∨ x ∈ ["D1"; "D2"].
Proof.
  assert (NoDup ([] ++ ["D1"; "D2"])) as Hnd.
  { simpl. apply NoDup_cons. split; [|apply NoDup_singleton].
    intros Hin%list_elem_of_singleton. discriminate Hin. }
  assert (get_valid_destination (λ s, s) (λ s, s) 6 ["D1"; "D2"] []
            ["D2"; "exit"; "D2"; "D1"; "ok"]
          = Some (Returned (Some ["D2"; "D1"]) [])) as E by (by vm_compute).
  split; [exact Hnd|]. split; [exact E|].
  exact (get_valid_destination_selection (λ s, s) (λ s, s) 6 ["D1"; "D2"] []
           ["D2"; "exit"; "D2"; "D1"; "ok"] ["D2"; "D1"] [] Hnd E).
Defined.

Lemma get_valid_destination_returns_on_ok_witness :
  get_valid_destination (λ s, s) (λ s, s) 6 ["D1"; "D2"] []
    ["D2"; "exit"; "OK"; "ok"; "D1"]
  = Some (Returned (Some ["D2"]) ["D1"])
  ∧ ∃ before line,
      ["D2"; "exit"; "OK"; "ok"; "D1"] = before ++ line :: ["D1"] ∧ line = "ok".
Proof.
  assert (get_valid_destination (λ s, s) (λ s, s) 6 ["D1"; "D2"] []
            ["D2"; "exit"; "OK"; "ok"; "D1"]
          = Some (Returned (Some ["D2"]) ["D1"])) as E by (by vm_compute).
  split; [exact E|].
  exact (get_valid_destination_returns_on_ok (λ s, s) (λ s, s) 6 ["D1"; "D2"] []
           ["D2"; "exit"; "OK"; "ok"; "D1"] (Some ["D2"]) ["D1"] E).
Defined.

Lemma get_valid_destination_without_ok_witness :
  Forall (λ x, x ≠ "ok") ["D1"; "exit"; "OK"]
  ∧ get_valid_destination (λ s, s) (λ s, s) (S (length ["D1"; "exit"; "OK"]))
      ["D1"; "D2"] [] ["D1"; "exit"; "OK"]
    = Some EOFError.
Proof.
  assert (Forall (λ x, x ≠ "ok") ["D1"; "exit"; "OK"]) as Hno
    by (repeat constructor; discriminate).
  split; [exact Hno|].
  exact (get_valid_destination_without_ok (λ s, s) (λ s, s) ["D1"; "D2"] []
           ["D1"; "exit"; "OK"] Hno).
Defined.

(** ** Concrete instances of two earlier lemmas *)

Lemma visit_order_irrelevant_witness :
  ["b"; "a"] ≡ₚ elements ({["a"; "b"]} : gset string)
  ∧ foldl (visit example_node_cost) ({["a"]}, 0) ["b"; "a"]
    = visit_all example_node_cost ({["a"]}, 0) ({["a"; "b"]} : gset string).
Proof.
  assert (["b"; "a"] ≡ₚ elements ({["a"; "b"]} : gset string)) as Hp.
  { apply NoDup_Permutation.
    - apply NoDup_cons. split; [|apply NoDup_singleton].
      intros Hin%list_elem_of_singleton. discriminate Hin.
    - apply NoDup_elements.
    - intros x. rewrite elem_of_elements. set_solver. }
  split; [exact Hp|].
  exact (visit_order_irrelevant example_node_cost ["b"; "a"] {["a"; "b"]}
           {["a"]} 0 Hp).
Defined.

Lemma userStory4_returns_common_nodes_witness :
  consistent example_node_cost example_edge_cost (example_path ["S"; "M"; "D1"])
  ∧ consistent example_node_cost example_edge_cost (example_path ["S"; "M"; "D2"])
  ∧ (UserStory4.calculate_total_path_cost
       [example_path ["S"; "M"; "D1"]; example_path ["S"; "M"; "D2"]] [5; 5]).2
    = F1013.node_names (example_path ["S"; "M"; "D1"])
      ∩ F1013.node_names (example_path ["S"; "M"; "D2"]).
Proof.
  split; [apply example_path_consistent|].
  split; [apply example_path_consistent|].
  exact (userStory4_returns_common_nodes example_node_cost example_edge_cost
           (example_path ["S"; "M"; "D1"]) (example_path ["S"; "M"; "D2"]) [5; 5]
           (example_path_consistent ["S"; "M"; "D1"])
           (example_path_consistent ["S"; "M"; "D2"])).
Defined.
